(** * Account selection, usage tracking and durable state of the
      multi-account plugin (src/src/index.mjs, final revision)

    JavaScript numbers that hold quota fractions are modelled as IEEE-754
    binary64 values ([float], the kernel's primitive floats), so [<], [/]
    and [||] behave as in the source, NaN and infinities included.
    Instants (epoch milliseconds, epoch seconds) and HTTP status codes are
    integers and are modelled as [Z].  JavaScript objects that the code
    mutates in place are threaded explicitly: a function that writes to
    [state] returns the new state next to its result, and [Date.now()] is
    an explicit argument [now]. *)

From Stdlib Require Import ZArith Floats Bool.
From stdpp Require Import gmap strings list fin_maps.

Set Warnings "-inexact-float".
Local Open Scope Z_scope.

(* ===================================================================== *)
(** * JavaScript primitives used by the code *)
(* ===================================================================== *)

(** [x || 0] on a number: 0, -0 and NaN are falsy. *)
Definition num_truthy (x : float) : bool :=
  negb (PrimFloat.is_nan x || PrimFloat.is_zero x).

Definition or_zero (x : float) : float :=
  if num_truthy x then x else 0%float.

(** [a > b] on numbers. *)
Definition gt (a b : float) : bool := (b <? a)%float.

(** [Math.max(a, b)]: NaN if either is NaN, +0 above -0. *)
Definition Math_max2 (a b : float) : float :=
  if PrimFloat.is_nan a || PrimFloat.is_nan b then nan
  else if (a <? b)%float then b
  else if (b <? a)%float then a
  else if PrimFloat.get_sign a then b else a.

Definition Math_max (a b c : float) : float := Math_max2 (Math_max2 a b) c.

(** [Math.min(...rs)] on a non-empty list of integers. *)
Definition Math_min (r : Z) (rs : list Z) : Z := fold_left Z.min rs r.

(** Truthiness of a string that may be undefined: undefined and the empty
    string are falsy. *)
Definition str_truthy (x : option string) : bool :=
  match x with
  | Some s => negb (String.eqb s "")
  | None => false
  end.

(* ===================================================================== *)
(** * Data model *)
(* ===================================================================== *)

(** One rate-limit window of one account: [{utilization, reset, status}];
    [reset] is in epoch seconds, or null. *)
Record Metric := mkMetric {
  utilization : float;
  reset : option Z;
  status : string
}.

(** The usage entry of one account.  A metric may be missing from the
    object (the code reads it through [?.]). *)
Record AccountUsage := mkUsage {
  session5h : option Metric;
  weekly7d : option Metric;
  weekly7dSonnet : option Metric;
  timestamp : option string
}.

(** The three metric keys the code iterates over. *)
Inductive MetricKey := Session5h | Weekly7d | Weekly7dSonnet.

Definition metricOf (k : MetricKey) (u : AccountUsage) : option Metric :=
  match k with
  | Session5h => session5h u
  | Weekly7d => weekly7d u
  | Weekly7dSonnet => weekly7dSonnet u
  end.

(** Normalized thresholds, one per metric. *)
Record Thresholds := mkThresholds {
  th_session5h : float;
  th_weekly7d : float;
  th_weekly7dSonnet : float
}.

Definition thresholdOf (k : MetricKey) (t : Thresholds) : float :=
  match k with
  | Session5h => th_session5h t
  | Weekly7d => th_weekly7d t
  | Weekly7dSonnet => th_weekly7dSonnet t
  end.

(** [config.threshold] is a number or an object with optional per-metric
    numbers. *)
Inductive ThresholdValue :=
  | ThresholdNumber (v : float)
  | ThresholdObject (s w ws : option float).

Record Config := mkConfig {
  threshold : option ThresholdValue;
  checkInterval : option Z
}.

(** The runtime state record persisted in the state file.  Every field may
    be absent from the JSON object. *)
Record State := mkState {
  config : option Config;
  currentAccount : option string;
  usage : option (gmap string AccountUsage);
  requestCount : option Z;
  lastPrimaryCheck : option Z
}.

Definition set_lastPrimaryCheck (v : option Z) (s : State) : State :=
  mkState (config s) (currentAccount s) (usage s) (requestCount s) v.

Definition set_usage (v : option (gmap string AccountUsage)) (s : State) : State :=
  mkState (config s) (currentAccount s) v (requestCount s) (lastPrimaryCheck s).

Definition set_currentAccount (v : option string) (s : State) : State :=
  mkState (config s) v (usage s) (requestCount s) (lastPrimaryCheck s).

(** [expiresAt] of a legacy record: epoch milliseconds or an ISO-8601
    string. *)
Inductive ExpiresAt :=
  | ExpiresNumber (n : Z)
  | ExpiresString (s : string).

(** A credential record.  [name] absent is modelled as the empty string
    (both are falsy, and the code only tests [!account?.name] and compares
    names with [===] against a truthy string).  [access], [refresh],
    [accessToken] and [refreshToken] are [Some s] when the field holds a
    string; [expires] is [Some n] when it holds a number. *)
Record Account := mkAccount {
  name : string;
  access : option string;
  refresh : option string;
  expires : option Z;
  accessToken : option string;
  refreshToken : option string;
  expiresAt : option ExpiresAt
}.

(* ===================================================================== *)
(** * Selection engine *)
(* ===================================================================== *)

(** [normalizeThresholds(value, fallback)] *)
Definition normalizeThresholds (value : option ThresholdValue) (fallback : float)
  : Thresholds :=
  match value with
  | Some (ThresholdNumber v) => mkThresholds v v v
  | Some (ThresholdObject s w ws) =>
      mkThresholds (default fallback s) (default fallback w) (default fallback ws)
  | None => mkThresholds fallback fallback fallback
  end.

(** [usage.<key>?.utilization || 0] *)
Definition utilOf (k : MetricKey) (u : AccountUsage) : float :=
  match metricOf k u with
  | Some m => or_zero (utilization m)
  | None => 0%float
  end.

(** [isOverThreshold(usage)], a closure over [thresholds]. *)
Definition isOverThreshold (thresholds : Thresholds) (usage : option AccountUsage)
  : bool :=
  match usage with
  | None => false
  | Some u =>
      gt (utilOf Session5h u) (th_session5h thresholds)
      || gt (utilOf Weekly7d u) (th_weekly7d thresholds)
      || gt (utilOf Weekly7dSonnet u) (th_weekly7dSonnet thresholds)
  end.

(** [getUtilizationScore(usage)]: the pressure of an account. *)
Definition getUtilizationScore (thresholds : Thresholds) (usage : option AccountUsage)
  : float :=
  match usage with
  | None => 0%float
  | Some u =>
      Math_max (utilOf Session5h u / th_session5h thresholds)%float
               (utilOf Weekly7d u / th_weekly7d thresholds)%float
               (utilOf Weekly7dSonnet u / th_weekly7dSonnet thresholds)%float
  end.

(** [getEarliestResetTime(usage)], in epoch milliseconds. *)
Definition getEarliestResetTime (usage : option AccountUsage) : option Z :=
  match usage with
  | None => None
  | Some u =>
      let resets :=
        omap id [session5h u ≫= reset; weekly7d u ≫= reset; weekly7dSonnet u ≫= reset] in
      match resets with
      | [] => None
      | r :: rs => Some (Math_min r rs * 1000)
      end
  end.

(** [state.usage?.[name]] *)
Definition usageOf (state : State) (n : string) : option AccountUsage :=
  usage state ≫= (λ m, m !! n).

(** [normalizeThresholds(config.threshold, 0.70)] with [config = state.config || {}]. *)
Definition thresholdsOfState (state : State) : Thresholds :=
  normalizeThresholds (config state ≫= threshold) 0.70%float.

(** [config.checkInterval ?? 3600000] *)
Definition CHECK_INTERVAL (state : State) : Z :=
  default 3600000 (config state ≫= checkInterval).

(** [state.lastPrimaryCheck || 0] *)
Definition lastCheckOf (state : State) : Z := default 0 (lastPrimaryCheck state).

(** [earliestReset && earliestReset <= now && earliestReset > lastCheck] *)
Definition resetPassed (now lastCheck : Z) (earliestReset : option Z) : bool :=
  match earliestReset with
  | Some e => negb (e =? 0) && (e <=? now) && (lastCheck <? e)
  | None => false
  end.

(** [(now - lastCheck) > CHECK_INTERVAL] *)
Definition intervalPassed (now lastCheck interval : Z) : bool :=
  interval <? now - lastCheck.

(** "The utilization of metric [k] strictly exceeds its configured
    threshold", for the usage entry the state holds for an account (an
    account without an entry exceeds nothing). *)
Definition exceeds (thresholds : Thresholds) (usage : option AccountUsage)
    (k : MetricKey) : bool :=
  match usage with
  | Some u => gt (utilOf k u) (thresholdOf k thresholds)
  | None => false
  end.

(** The two states of the selection state machine, as the code tells them
    apart ([currentIsPrimary]). *)
Inductive Mode := PRIMARY_ACTIVE | FALLBACK_ACTIVE.

(** [fallbacks.reduce((lowest, f) => score(f) < score(lowest) ? f : lowest, fallbacks[0])] *)
Definition lowestPressure (thresholds : Thresholds) (state : State)
    (first : Account) (fallbacks : list Account) : Account :=
  fold_left
    (λ lowest f,
       if (getUtilizationScore thresholds (usageOf state (name f))
           <? getUtilizationScore thresholds (usageOf state (name lowest)))%float
       then f else lowest)
    fallbacks first.

(** [accounts.find(a => a.name === state.currentAccount) || fallbacks[0]] *)
Definition currentOrFirstFallback (accounts : list Account) (cur : string)
    (firstFallback : Account) : Account :=
  default firstFallback (List.find (λ a, String.eqb (name a) cur) accounts).

(** [selectThresholdAccount(accounts, state)].  The result is the chosen
    account ([None] for JavaScript's null) and the state after the call,
    whose [lastPrimaryCheck] the function may have overwritten.  The
    [console.log] lines are not modelled. *)
Definition selectThresholdAccount (now : Z) (accounts : list Account) (state : State)
  : option Account * State :=
  let thresholds := thresholdsOfState state in
  match accounts with
  | [] => (None, state)
  | [only] => (Some only, state)
  | primary :: ((first :: _) as fallbacks) =>
      match currentAccount state with
      | None => (Some primary, state)
      | Some cur =>
          if String.eqb cur "" then (Some primary, state)
          else
            let primaryUsage := usageOf state (name primary) in
            let currentIsPrimary := String.eqb cur (name primary) in
            if currentIsPrimary then
              if isOverThreshold thresholds primaryUsage then
                match List.find
                        (λ f, negb (isOverThreshold thresholds (usageOf state (name f))))
                        fallbacks with
                | Some fallback => (Some fallback, state)
                | None => (Some (lowestPressure thresholds state first fallbacks), state)
                end
              else (Some primary, state)
            else
              let lastCheck := lastCheckOf state in
              let earliestReset := getEarliestResetTime primaryUsage in
              if resetPassed now lastCheck earliestReset
                 || intervalPassed now lastCheck (CHECK_INTERVAL state)
              then
                let state' := set_lastPrimaryCheck (Some now) state in
                if negb (isOverThreshold thresholds primaryUsage)
                then (Some primary, state')
                else (Some (currentOrFirstFallback accounts cur first), state')
              else (Some (currentOrFirstFallback accounts cur first), state)
      end
  end.

(** The state of the machine before a call, for a list of two or more
    accounts and a recorded (truthy) active account name. *)
Definition modeOf (accounts : list Account) (state : State) : option Mode :=
  match accounts, currentAccount state with
  | primary :: _ :: _, Some cur =>
      if String.eqb cur "" then None
      else if String.eqb cur (name primary) then Some PRIMARY_ACTIVE
      else Some FALLBACK_ACTIVE
  | _, _ => None
  end.

(* ===================================================================== *)
(** * Usage tracker *)
(* ===================================================================== *)

Definition EMPTY_METRIC : Metric := mkMetric 0%float None "allowed".

Definition EMPTY_USAGE : AccountUsage :=
  mkUsage (Some EMPTY_METRIC) (Some EMPTY_METRIC) (Some EMPTY_METRIC) None.

(** [ensureAllAccountsInState(accounts, state)] *)
Definition ensureAllAccountsInState (accounts : list Account) (state : State)
  : State * bool :=
  match accounts with
  | [] => (state, false)
  | _ =>
      let step (acc : gmap string AccountUsage * bool) (account : Account) :=
        match fst acc !! name account with
        | Some _ => acc
        | None => (<[name account := EMPTY_USAGE]> (fst acc), true)
        end in
      let r := fold_left step accounts (default ∅ (usage state), false) in
      (set_usage (Some (fst r)) state, snd r)
  end.

(** The test of [resolveStaleMetrics] on one metric:
    [metric?.reset && metric.reset * 1000 < now && metric.utilization > 0]. *)
Definition isStale (now : Z) (m : Metric) : bool :=
  match reset m with
  | Some r => negb (r =? 0) && (r * 1000 <? now) && gt (utilization m) 0%float
  | None => false
  end.

(** The body of the inner loop for one metric slot: the metric after the
    iteration and whether it was rewritten. *)
Definition resolveMetric (now : Z) (m : option Metric) : option Metric * bool :=
  match m with
  | Some m =>
      if isStale now m then (Some (mkMetric 0%float (reset m) "allowed"), true)
      else (Some m, false)
  | None => (None, false)
  end.

(** The inner loop over the three keys for one account. *)
Definition resolveUsage (now : Z) (u : AccountUsage) : AccountUsage * bool :=
  let s := resolveMetric now (session5h u) in
  let w := resolveMetric now (weekly7d u) in
  let ws := resolveMetric now (weekly7dSonnet u) in
  (mkUsage (fst s) (fst w) (fst ws) (timestamp u), snd s || snd w || snd ws).

(** [resolveStaleMetrics(state)]: the outer loop visits every key of
    [state.usage] once and rewrites the entries independently of one
    another. *)
Definition resolveStaleMetrics (now : Z) (state : State) : State * bool :=
  match usage state with
  | None => (state, false)
  | Some um =>
      (set_usage (Some ((λ u, fst (resolveUsage now u)) <$> um)) state,
       existsb (λ kv, snd (resolveUsage now (snd kv))) (map_to_list um))
  end.

(** A metric as the data model has it: the utilization is a fraction in
    [0, 1], and a reset instant, when there is one, is not 0 (0 is falsy,
    and the code reads a falsy [reset] as "no reset" wherever it reads
    one). *)
Definition metric_in_model (m : Metric) : Prop :=
  (0 <=? utilization m)%float = true ∧ (utilization m <=? 1)%float = true ∧
  reset m ≠ Some 0.

(** Response headers: [response.headers.get(k)] is [h !! k], null when the
    header is absent. *)
Abbreviation Headers := (gmap string string).

Section Observation.
(** [parseFloat] and [parseInt] of the JavaScript runtime; [parseInt]
    returns [None] for NaN. *)
Variable parseFloat : string → float.
Variable parseInt : string → option Z.

(** [parseInt(rawReset) || null] *)
Definition parseReset (rawReset : string) : option Z :=
  match parseInt rawReset with
  | Some z => if z =? 0 then None else Some z
  | None => None
  end.

(** [updateMetric(prev, prefix)], a closure over [response]. *)
Definition updateMetric (headers : Headers) (prev : option Metric) (prefix : string)
  : option Metric :=
  let rawUtil := headers !! (prefix +:+ "-utilization") in
  let rawReset := headers !! (prefix +:+ "-reset") in
  let rawStatus := headers !! (prefix +:+ "-status") in
  match rawUtil, rawReset, rawStatus with
  | None, None, None => prev
  | _, _, _ =>
      let newReset := rawReset ≫= parseReset in
      match newReset, prev with
      | None, Some _ => prev
      | _, _ =>
          Some (mkMetric
                  match rawUtil with
                  | Some s => or_zero (parseFloat s)
                  | None => default 0%float (utilization <$> prev)
                  end
                  match newReset with
                  | Some r => Some r
                  | None => prev ≫= reset
                  end
                  match rawStatus with
                  | Some s => s
                  | None => default "unknown" (status <$> prev)
                  end)
      end
  end.

(** The header prefix of each metric. *)
Definition prefixOf (k : MetricKey) : string :=
  match k with
  | Session5h => "anthropic-ratelimit-unified-5h"
  | Weekly7d => "anthropic-ratelimit-unified-7d"
  | Weekly7dSonnet => "anthropic-ratelimit-unified-7d_sonnet"
  end.

(** The usage update of [fetch] after a response:
    [state.usage = state.usage || {}; prev = state.usage[name] || {};
     state.usage[name] = { session5h: updateMetric(...), ..., timestamp }]. *)
Definition updateUsage (headers : Headers) (nowIso : string) (accountName : string)
    (state : State) : State :=
  let um := default ∅ (usage state) in
  let prev := default (mkUsage None None None None) (um !! accountName) in
  let next :=
    mkUsage
      (updateMetric headers (session5h prev) "anthropic-ratelimit-unified-5h")
      (updateMetric headers (weekly7d prev) "anthropic-ratelimit-unified-7d")
      (updateMetric headers (weekly7dSonnet prev) "anthropic-ratelimit-unified-7d_sonnet")
      (Some nowIso) in
  set_usage (Some (<[accountName := next]> um)) state.
End Observation.

(* ===================================================================== *)
(** * Account store: normalization and merge of legacy sources *)
(* ===================================================================== *)

Section Merge.
(** [Date.parse]; [None] when the result is not finite. *)
Variable Date_parse : string → option Z.

(** [normalizeAccountFields(account)] *)
Definition normalizeAccountFields (account : Account) : Account :=
  let access' :=
    if negb (str_truthy (access account)) then
      match accessToken account with Some t => Some t | None => access account end
    else access account in
  let refresh' :=
    if negb (str_truthy (refresh account)) then
      match refreshToken account with Some t => Some t | None => refresh account end
    else refresh account in
  let expires' :=
    match expires account with
    | Some e => Some e
    | None =>
        match expiresAt account with
        | Some (ExpiresNumber n) => Some n
        | Some (ExpiresString s) => Date_parse s
        | None => None
        end
    end in
  mkAccount (name account) access' refresh' expires'
            (accessToken account) (refreshToken account) (expiresAt account).

(** [getAccountExpiry(account)] *)
Definition getAccountExpiry (account : Account) : Z :=
  default 0 (expires (normalizeAccountFields account)).

(** [hasRefreshToken(account)] *)
Definition hasRefreshToken (account : Account) : bool :=
  match refresh account with
  | Some r => 0 <? Z.of_nat (String.length r)
  | None => false
  end.

(** [pickPreferredAccount(current, candidate)]; [current] is undefined
    when the name was not seen before. *)
Definition pickPreferredAccount (current : option Account) (candidate : Account)
  : Account :=
  match current with
  | None => candidate
  | Some current =>
      let currentHasRefresh := hasRefreshToken current in
      let candidateHasRefresh := hasRefreshToken candidate in
      if candidateHasRefresh && negb currentHasRefresh then candidate
      else if getAccountExpiry current <? getAccountExpiry candidate then candidate
      else current
  end.

(** A JavaScript [Map] keyed by account name: insertion-ordered, [set] on
    a present key keeps its position. *)
Fixpoint Map_get (m : list (string * Account)) (k : string) : option Account :=
  match m with
  | [] => None
  | (k', v) :: rest => if String.eqb k' k then Some v else Map_get rest k
  end.

Fixpoint Map_set (m : list (string * Account)) (k : string) (v : Account)
  : list (string * Account) :=
  match m with
  | [] => [(k, v)]
  | (k', v') :: rest =>
      if String.eqb k' k then (k, v) :: rest else (k', v') :: Map_set rest k v
  end.

(** One parsed source file: [{accounts, requestCount}]; [accounts] is
    [None] when it is not an array. *)
Record Source := mkSource {
  src_accounts : option (list Account);
  src_requestCount : option Z
}.

Record MultiAuth := mkMultiAuth {
  accounts : list Account;
  ma_requestCount : Z
}.

(** The inner loop of [mergeMultiAuthSources] over one source's accounts. *)
Definition mergeAccounts (mergedByName : list (string * Account))
    (rawAccounts : list Account) : list (string * Account) :=
  fold_left
    (λ merged rawAccount,
       let account := normalizeAccountFields rawAccount in
       if String.eqb (name account) "" then merged
       else
         let current := Map_get merged (name account) in
         Map_set merged (name account) (pickPreferredAccount current account))
    rawAccounts mergedByName.

(** [mergeMultiAuthSources(sourceDataList)]; a null source is [None]. *)
Definition mergeMultiAuthSources (sourceDataList : list (option Source))
  : option MultiAuth :=
  let step (acc : list (string * Account) * Z) (source : option Source) :=
    match source with
    | Some src =>
        match src_accounts src with
        | Some rawAccounts =>
            let requestCount :=
              match src_requestCount src with
              | Some n => if snd acc <? n then n else snd acc
              | None => snd acc
              end in
            (mergeAccounts (fst acc) rawAccounts, requestCount)
        | None => acc
        end
    | None => acc
    end in
  let r := fold_left step sourceDataList ([], 0) in
  match fst r with
  | [] => None
  | merged => Some (mkMultiAuth (map snd merged) (snd r))
  end.
(** The invariant of [mergedByName]: no key twice, every record stored
    under its own, truthy, name. *)
Definition merged_ok (m : list (string * Account)) : Prop :=
  NoDup (fst <$> m) ∧ ∀ k v, In (k, v) m → name v = k ∧ k ≠ "".
End Merge.

(* ===================================================================== *)
(** * Persistence primitive *)
(* ===================================================================== *)

(** The files of the file system, by path.  Directories are not modelled:
    [mkdirSync] creates no file and changes no file's content. *)
Abbreviation FS := (gmap string string).

(** [copyFileSync(src, dst)]; throws (no effect) when [src] is missing. *)
Definition copyFileSync (src dst : string) (fs : FS) : FS :=
  match fs !! src with
  | Some c => <[dst := c]> fs
  | None => fs
  end.

(** [writeFileSync(path, content)] *)
Definition writeFileSync (path content : string) (fs : FS) : FS :=
  <[path := content]> fs.

(** [renameSync(src, dst)]: one atomic step that replaces [dst]. *)
Definition renameSync (src dst : string) (fs : FS) : FS :=
  match fs !! src with
  | Some c => <[dst := c]> (delete src fs)
  | None => fs
  end.

(** How far a call of [safeWriteJSON] got before it was interrupted, or
    before one of its file operations threw into the [catch].  A copy or
    a write that is cut short leaves the first [n] characters in its
    target file. *)
Inductive Progress :=
  | NothingDone
  | CopyingBackup (n : nat)
  | BackupDone
  | WritingTmp (n : nat)
  | BeforeRename
  | Renamed.

Section Persistence.
(** Parsed JSON values with the runtime's [JSON.parse] ([None] when it
    throws) and [JSON.stringify(data, null, 2)]. *)
Variable Json : Type.
Variable JSON_parse : string → option Json.
Variable JSON_stringify : Json → string.

(** The loop of [safeReadJSON] over its candidate paths. *)
Fixpoint readFirst (fs : FS) (paths : list string) (fallback : Json) : Json :=
  match paths with
  | [] => fallback
  | path :: rest =>
      match fs !! path with
      | None => readFirst fs rest fallback
      | Some content =>
          match JSON_parse content with
          | Some data => data
          | None => readFirst fs rest fallback
          end
      end
  end.

(** [safeReadJSON(filePath, fallback)] *)
Definition safeReadJSON (fs : FS) (filePath : string) (fallback : Json) : Json :=
  readFirst fs [filePath; filePath +:+ ".bak"] fallback.

(** The file system after the backup step of [safeWriteJSON]:
    [if (existsSync(filePath)) copyFileSync(filePath, filePath + '.bak')]. *)
Definition afterBackup (fs : FS) (filePath : string) : FS :=
  match fs !! filePath with
  | Some _ => copyFileSync filePath (filePath +:+ ".bak") fs
  | None => fs
  end.

(** [safeWriteJSON(filePath, data)] run up to a given point. *)
Definition safeWriteJSON_upto (p : Progress) (fs : FS) (filePath : string)
    (data : Json) : FS :=
  let bak := filePath +:+ ".bak" in
  let tmp := filePath +:+ ".tmp" in
  let content := JSON_stringify data in
  match p with
  | NothingDone => fs
  | CopyingBackup n =>
      match fs !! filePath with
      | Some old => <[bak := String.substring 0 n old]> fs
      | None => fs
      end
  | BackupDone => afterBackup fs filePath
  | WritingTmp n => <[tmp := String.substring 0 n content]> (afterBackup fs filePath)
  | BeforeRename => writeFileSync tmp content (afterBackup fs filePath)
  | Renamed =>
      renameSync tmp filePath (writeFileSync tmp content (afterBackup fs filePath))
  end.

(** [safeWriteJSON(filePath, data)] run to completion. *)
Definition safeWriteJSON (fs : FS) (filePath : string) (data : Json) : FS :=
  safeWriteJSON_upto Renamed fs filePath data.
End Persistence.

(* ===================================================================== *)
(** * Credential refresher and the refresh loop of [fetch] *)
(* ===================================================================== *)

(** The response of the token endpoint. *)
Record TokenResponse := mkTokenResponse {
  resp_ok : bool;
  resp_status : Z;
  access_token : string;
  refresh_token : string;
  expires_in : Z
}.

(** [{ ok: true }] or [{ ok: false, status }] *)
Inductive RefreshResult :=
  | RefreshOk
  | RefreshFailed (status : Z).

(** How the refresh loop of [fetch] ends: with a fresh account, or with
    [throw new Error(`Token refresh failed for ${account.name}: ${status}`)].
    [OutOfFuel] is not a behaviour of the code. *)
Inductive LoopResult :=
  | Refreshed (account : Account) (state : State) (attempted : list string)
  | TokenRefreshFailed (accountName : string) (status : Z) (attempted : list string)
  | OutOfFuel.

(** A JavaScript [Set] of names: insertion-ordered, no duplicates. *)
Definition Set_has (s : list string) (x : string) : bool :=
  existsb (String.eqb x) s.

Definition Set_add (s : list string) (x : string) : list string :=
  if Set_has s x then s else s ++ [x].


Section Refresh.
(** The POST to the token endpoint, by the refresh token sent. *)
Variable postToken : option string → TokenResponse.

(** [ensureFreshAccountToken(account, multiAuth)]: the outcome and the
    account object after the call.  Persisting the list
    ([saveMultiAuth]) is left out. *)
Definition ensureFreshAccountToken (now : Z) (account : Account)
  : RefreshResult * Account :=
  if str_truthy (access account)
     && match expires account with Some e => now <? e | None => false end
  then (RefreshOk, account)
  else
    let response := postToken (refresh account) in
    if negb (resp_ok response) then (RefreshFailed (resp_status response), account)
    else
      let e := now + expires_in response * 1000 in
      (RefreshOk,
       mkAccount (name account)
                 (Some (access_token response)) (Some (refresh_token response)) (Some e)
                 (Some (access_token response)) (Some (refresh_token response))
                 (Some (ExpiresNumber e))).

(** [state.currentAccount = account.name;
     if (account.name !== previousAccount && account.name !== primaryName)
       state.lastPrimaryCheck = Date.now();] *)
Definition trackAccount (now : Z) (previousAccount primaryName : option string)
    (account : Account) (state : State) : State :=
  let state' := set_currentAccount (Some (name account)) state in
  if negb (bool_decide (Some (name account) = previousAccount))
     && negb (bool_decide (Some (name account) = primaryName))
  then set_lastPrimaryCheck (Some now) state'
  else state'.

(** The [while (true)] loop of [fetch]; one unit of fuel per iteration. *)
Fixpoint refreshLoop (fuel : nat) (now : Z) (accounts : list Account)
    (previousAccount primaryName : option string)
    (account : Account) (attemptedAccounts : list string) (state : State)
  : LoopResult :=
  match fuel with
  | O => OutOfFuel
  | S fuel' =>
      match ensureFreshAccountToken now account with
      | (RefreshOk, account') => Refreshed account' state attemptedAccounts
      | (RefreshFailed status, _) =>
          let attempted' := Set_add attemptedAccounts (name account) in
          match List.find (λ candidate, negb (Set_has attempted' (name candidate)))
                          accounts with
          | None => TokenRefreshFailed (name account) status attempted'
          | Some fallback =>
              refreshLoop fuel' now accounts previousAccount primaryName
                          fallback attempted'
                          (trackAccount now previousAccount primaryName fallback state)
          end
      end
  end.



End Refresh.

(** The body of the outer loop of [mergeMultiAuthSources], on the pair of
    [mergedByName] and [requestCount]. *)
Definition mergeStep (Date_parse : string → option Z)
    (acc : list (string * Account) * Z) (source : option Source)
  : list (string * Account) * Z :=
  match source with
  | Some src =>
      match src_accounts src with
      | Some rawAccounts =>
          (mergeAccounts Date_parse (fst acc) rawAccounts,
           match src_requestCount src with
           | Some n => if snd acc <? n then n else snd acc
           | None => snd acc
           end)
      | None => acc
      end
  | None => acc
  end.

(** Every record of every source that has an [accounts] array, in the
    order [mergeMultiAuthSources] visits them. *)
Definition sourceAccounts (sourceDataList : list (option Source)) : list Account :=
  concat (map (λ source : option Source, default [] (source ≫= src_accounts))
              sourceDataList).


(* ===================================================================== *)
(** * State store *)
(* ===================================================================== *)

Section StateStore.
(** Parsed JSON values, with [null] among them and [===] on them, the
    runtime's parser and printer, and the test
    [data && typeof data === "object"] of [getState].  The two paths are
    built from the home directory at load time. *)
Context {Json : Type} `{EqDecision Json}.
Variable JSON_parse : string → option Json.
Variable JSON_stringify : Json → string.
Variable JSON_null : Json.
Variable isObject : Json → bool.
Variable STATE_FILE LEGACY_STATE_FILE : string.

(** [readJsonWithFallback(filePaths, fallback)]: the data and the path it
    came from ([None] for a null [sourcePath]). *)
Fixpoint readJsonWithFallback (fs : FS) (filePaths : list string) (fallback : Json)
  : Json * option string :=
  match filePaths with
  | [] => (fallback, None)
  | filePath :: rest =>
      let data := safeReadJSON Json JSON_parse fs filePath JSON_null in
      if bool_decide (data ≠ JSON_null) then (data, Some filePath)
      else readJsonWithFallback fs rest fallback
  end.

(** [saveState(state)] *)
Definition saveState (fs : FS) (state : Json) : FS :=
  safeWriteJSON Json JSON_stringify fs STATE_FILE state.

(** [getState()]: the state read, and the file system after the call
    (a state found in the legacy file is written to the state file).
    [empty] is the object literal [{}]. *)
Definition getState (fs : FS) (empty : Json) : Json * FS :=
  let r := readJsonWithFallback fs [STATE_FILE; LEGACY_STATE_FILE] empty in
  if bool_decide (snd r = Some LEGACY_STATE_FILE) && isObject (fst r)
  then (fst r, saveState fs (fst r))
  else (fst r, fs).
End StateStore.

(* ===================================================================== *)
(** * The account choice of [fetch] *)
(* ===================================================================== *)

Definition set_requestCount (v : option Z) (s : State) : State :=
  mkState (config s) (currentAccount s) (usage s) v (lastPrimaryCheck s).

(** How far [fetch] gets before it builds the request. *)
Inductive Prepared :=
  | PassThrough
  | NoAccountsConfigured
  | RefreshError (accountName : string) (status : Z)
  | Ready (account : Account) (state : State)
  | Diverges.

(** The first part of the multi-account [fetch], from the account list and
    the state it has loaded to the increment of the request counter:
    - [PassThrough]: [if (!multiAuth?.accounts?.length) return fetch(input, init)];
    - [NoAccountsConfigured]: [throw new Error("No accounts configured for multi-account")];
    - [RefreshError]: the error of the refresh loop;
    - [Ready]: the account whose token goes into the request, and the
      state after [state.requestCount = (state.requestCount || 0) + 1]. *)
Definition prepareRequest (postToken : option string → TokenResponse) (now : Z)
    (accounts : list Account) (state : State) : Prepared :=
  match accounts with
  | [] => PassThrough
  | _ =>
      let state1 := fst (ensureAllAccountsInState accounts state) in
      let state2 := fst (resolveStaleMetrics now state1) in
      match selectThresholdAccount now accounts state2 with
      | (None, _) => NoAccountsConfigured
      | (Some account, state3) =>
          let previousAccount := currentAccount state3 in
          let primaryName := name <$> head accounts in
          let state4 := trackAccount now previousAccount primaryName account state3 in
          match refreshLoop postToken (S (length accounts)) now accounts
                            previousAccount primaryName account [] state4 with
          | Refreshed account' state5 _ =>
              Ready account'
                    (set_requestCount (Some (default 0 (requestCount state5) + 1)) state5)
          | TokenRefreshFailed n status _ => RefreshError n status
          | OutOfFuel => Diverges
          end
      end
  end.



(* ===================================================================== *)
(** * Fixtures for the worked examples *)
(* ===================================================================== *)

Definition account_named (n : string) : Account :=
  mkAccount n (Some "access") (Some "refresh") (Some 0) None None None.

Definition metric_at (u : float) : option Metric := Some (mkMetric u None "allowed").

Definition usage_at (s w ws : float) : AccountUsage :=
  mkUsage (metric_at s) (metric_at w) (metric_at ws) None.

Definition state_with (cur : option string) (um : gmap string AccountUsage)
    (lastCheck : option Z) : State :=
  mkState None cur (Some um) None lastCheck.

(** Three accounts; the primary is over its weekly threshold, the first
    fallback over its session threshold, the second fallback is quiet. *)
Definition demo_accounts : list Account :=
  [account_named "primary"; account_named "backup"; account_named "third"].

Definition demo_usage : gmap string AccountUsage :=
  <["primary" := usage_at 0.1 0.85 0]>
    (<["backup" := usage_at 0.95 0.1 0.1]>
       (<["third" := usage_at 0.1 0.1 0.1]> ∅)).

(** The same, with the second fallback over threshold too. *)
Definition busy_usage : gmap string AccountUsage :=
  <["primary" := usage_at 0.1 0.85 0]>
    (<["backup" := usage_at 0.95 0.1 0.1]>
       (<["third" := usage_at 0.1 0.8 0.1]> ∅)).

(** One account whose session window ended one second ago (epoch second
    999, [now] is 1 000 000 ms) at utilization 0.9. *)
Definition stale_metric : Metric := mkMetric 0.9%float (Some 999) "rejected".

Definition stale_entry : AccountUsage :=
  mkUsage (Some stale_metric) (metric_at 0.2) None None.

Definition stale_state : State :=
  state_with (Some "primary") (<["primary" := stale_entry]> ∅) None.

(** Stand-ins for [parseFloat] and [parseInt] on the header values the
    examples use; anything else does not parse. *)
Definition parseFloat_sample (s : string) : float :=
  if String.eqb s "0.5" then 0.5%float
  else if String.eqb s "0.95" then 0.95%float
  else nan.

Definition parseInt_sample (s : string) : option Z :=
  if String.eqb s "1700000000" then Some 1700000000 else None.

Definition known_metric : Metric := mkMetric 0.1%float (Some 1600000000) "allowed".

(** A response that carries the session utilization and nothing else. *)
Definition utilization_only : Headers :=
  {[ "anthropic-ratelimit-unified-5h-utilization" := "0.5" ]}.

(** A response that carries the session utilization and reset. *)
Definition utilization_and_reset : Headers :=
  <["anthropic-ratelimit-unified-5h-utilization" := "0.5"]>
    {[ "anthropic-ratelimit-unified-5h-reset" := "1700000000" ]}.

Definition known_state : State :=
  state_with (Some "primary")
    (<["primary" := mkUsage (Some known_metric) (metric_at 0.2) None None]> ∅) None.

(** Two records of the account "work" from two legacy files: one can be
    refreshed and expires at 1000, the other has an empty refresh token
    and expires at 2000. *)
Definition refreshable_record : Account :=
  mkAccount "work" (Some "access-a") (Some "refresh-a") (Some 1000) None None None.

Definition unrefreshable_record : Account :=
  mkAccount "work" (Some "access-b") (Some "") (Some 2000) None None None.

Definition source_of (a : Account) : option Source :=
  Some (mkSource (Some [a]) None).

Definition Date_parse_sample (s : string) : option Z := None.



(** The two state paths under the home directory [/home], and a file
    system that holds the legacy state file only. *)
Definition state_file_sample : string :=
  "/home/.config/opencode/anthropic-multi-account-state.json".

Definition legacy_file_sample : string :=
  "/home/.local/share/opencode/multi-account-state.json".

Definition legacy_only : FS := {[ legacy_file_sample := "{}" ]}.

(* ===================================================================== *)
(** * Properties *)
(* ===================================================================== *)

(** ** Order facts about binary64 comparison *)

Lemma lex_compare_Lt e1 m1 e2 m2 :
  match e1 ?= e2 with
  | Eq => PosDef.Pos.compare_cont Eq m1 m2
  | Lt => Lt
  | Gt => Gt
  end = Lt ↔ e1 < e2 ∨ (e1 = e2 ∧ (m1 < m2)%positive).
Proof.
  change (PosDef.Pos.compare_cont Eq m1 m2) with (Pos.compare m1 m2).
  destruct (Z.compare_spec e1 e2); destruct (Pos.compare_spec m1 m2);
    split; intros; try discriminate; try reflexivity; lia.
Qed.

Lemma lex_compare_opp_Lt e1 m1 e2 m2 :
  match e1 ?= e2 with
  | Eq => CompOpp (PosDef.Pos.compare_cont Eq m1 m2)
  | Lt => Gt
  | Gt => Lt
  end = Lt ↔ e2 < e1 ∨ (e1 = e2 ∧ (m2 < m1)%positive).
Proof.
  change (PosDef.Pos.compare_cont Eq m1 m2) with (Pos.compare m1 m2).
  destruct (Z.compare_spec e1 e2); destruct (Pos.compare_spec m1 m2);
    split; simpl; intros; try discriminate; try reflexivity; lia.
Qed.

Lemma SFcompare_Lt_trans x y z :
  SFcompare x y = Some Lt → SFcompare y z = Some Lt → SFcompare x z = Some Lt.
Proof.
  destruct x as [sx|sx| |sx mx ex], y as [sy|sy| |sy my ey], z as [sz|sz| |sz mz ez];
    simpl; try discriminate; try reflexivity;
    repeat match goal with s : bool |- _ => destruct s end;
    simpl; try discriminate; try reflexivity; try congruence.
  all: intros H1 H2; injection H1 as H1; injection H2 as H2; f_equal.
  all: first [ apply lex_compare_Lt; apply lex_compare_Lt in H1, H2; lia
             | apply lex_compare_opp_Lt; apply lex_compare_opp_Lt in H1, H2; lia ].
Qed.

Lemma SFcompare_irrefl x : SFcompare x x ≠ Some Lt.
Proof.
  destruct x as [s|s| |s m e]; simpl; try discriminate.
  - destruct s; discriminate.
  - intros H. injection H as H. destruct s.
    + apply lex_compare_opp_Lt in H. lia.
    + apply lex_compare_Lt in H. lia.
Qed.

Lemma float_ltb_trans (a b c : float) :
  (a <? b)%float = true → (b <? c)%float = true → (a <? c)%float = true.
Proof.
  rewrite !ltb_spec. unfold SFltb.
  destruct (SFcompare (Prim2SF a) (Prim2SF b)) as [[]|] eqn:E1; try discriminate.
  destruct (SFcompare (Prim2SF b) (Prim2SF c)) as [[]|] eqn:E2; try discriminate.
  intros _ _. by rewrite (SFcompare_Lt_trans _ _ _ E1 E2).
Qed.

Lemma float_ltb_irrefl (a : float) : (a <? a)%float = false.
Proof.
  rewrite ltb_spec. unfold SFltb.
  destruct (SFcompare (Prim2SF a) (Prim2SF a)) as [[]|] eqn:E; try reflexivity.
  by apply SFcompare_irrefl in E.
Qed.

(** ** Lists and names *)



Lemma find_no_name (l : list Account) (n : string) :
  (∀ a, In a l → name a ≠ n) →
  List.find (λ b, String.eqb (name b) n) l = None.
Proof.
  induction l as [|b l IH]; simpl; intros H; [done|].
  destruct (String.eqb (name b) n) eqn:E.
  - apply String.eqb_eq in E. exfalso. by apply (H b); auto.
  - apply IH. auto.
Qed.

(** ** The threshold test *)

Lemma isOverThreshold_exceeds th u :
  isOverThreshold th u = true ↔ ∃ k, exceeds th u k = true.
Proof.
  destruct u as [u|]; simpl.
  - rewrite !orb_true_iff. split.
    + intros [[H|H]|H]; [by exists Session5h | by exists Weekly7d | by exists Weekly7dSonnet].
    + intros [[] H]; simpl in H; auto.
  - split; [done | by intros [k H]].
Qed.

Lemma isOverThreshold_not_exceeds th u :
  isOverThreshold th u = false ↔ ¬ ∃ k, exceeds th u k = true.
Proof.
  rewrite <- isOverThreshold_exceeds. by destruct (isOverThreshold th u).
Qed.

(** ** Selection from the primary *)

(** The fold of [lowestPressure] keeps an account that no visited account
    undercuts. *)
Lemma lowestPressure_fold th state (l seen : list Account) (acc : Account) :
  let score a := getUtilizationScore th (usageOf state (name a)) in
  (∀ f, In f seen → (score f <? score acc)%float = false) →
  let best := lowestPressure th state acc l in
  (best = acc ∨ In best l) ∧
  ∀ f, In f (seen ++ l) → (score f <? score best)%float = false.
Proof.
  intros score. revert seen acc.
  induction l as [|g l IH]; intros seen acc Hseen; simpl.
  - split; [by left|]. intros f Hf. rewrite app_nil_r in Hf. auto.
  - unfold lowestPressure in *. simpl. fold (score g). fold (score acc).
    destruct (score g <? score acc)%float eqn:Hlt.
    + destruct (IH (seen ++ [g]) g) as [Hmem Hmin].
      * intros f Hf. apply in_app_or in Hf as [Hf|[<-|[]]].
        -- destruct (score f <? score g)%float eqn:Hfg; [|done].
           rewrite <- (Hseen f Hf). symmetry. by eapply float_ltb_trans.
        -- apply float_ltb_irrefl.
      * split; [destruct Hmem; auto|].
        intros f Hf. apply Hmin. rewrite <- app_assoc. done.
    + destruct (IH (seen ++ [g]) acc) as [Hmem Hmin].
      * intros f Hf. apply in_app_or in Hf as [Hf|[<-|[]]]; auto.
      * split; [destruct Hmem; auto|].
        intros f Hf. apply Hmin. rewrite <- app_assoc. done.
Qed.





Example select_lowest_pressure_demo :
  fst (selectThresholdAccount 5000000 demo_accounts
         (state_with (Some "primary") busy_usage None))
  = Some (account_named "third").
Proof. vm_compute. reflexivity. Qed.

(** ** Selection from a fallback *)



(** The [else] branch of [selectThresholdAccount], taken when the recorded
    active account is truthy and is not the primary's name. *)
Lemma select_not_primary now primary first rest state cur :
  currentAccount state = Some cur → cur ≠ "" → cur ≠ name primary →
  selectThresholdAccount now (primary :: first :: rest) state =
  let stay := Some (currentOrFirstFallback (primary :: first :: rest) cur first) in
  if resetPassed now (lastCheckOf state)
       (getEarliestResetTime (usageOf state (name primary)))
     || intervalPassed now (lastCheckOf state) (CHECK_INTERVAL state)
  then
    if isOverThreshold (thresholdsOfState state) (usageOf state (name primary))
    then (stay, set_lastPrimaryCheck (Some now) state)
    else (Some primary, set_lastPrimaryCheck (Some now) state)
  else (stay, state).
Proof.
  intros Hcur He Hp. unfold selectThresholdAccount. rewrite Hcur.
  apply String.eqb_neq in He, Hp. rewrite He, Hp. cbv zeta.
  destruct (_ || _); [|done].
  by destruct (isOverThreshold _ _).
Qed.


(** C9, as the code has it.  With two or more accounts and a recorded
    active name that matches no account, [selectThresholdAccount] still
    returns an account: the primary when a recovery trigger fires and the
    primary is not over threshold, and the first fallback otherwise. *)
Theorem select_unknown_active now primary first rest state cur :
  currentAccount state = Some cur →
  cur ≠ "" →
  (∀ a, In a (primary :: first :: rest) → name a ≠ cur) →
  let primaryUsage := usageOf state (name primary) in
  let due :=
    resetPassed now (lastCheckOf state) (getEarliestResetTime primaryUsage)
    || intervalPassed now (lastCheckOf state) (CHECK_INTERVAL state) in
  fst (selectThresholdAccount now (primary :: first :: rest) state) =
  Some (if due && negb (isOverThreshold (thresholdsOfState state) primaryUsage)
        then primary else first).
Proof.
  intros Hcur Hne Hnone primaryUsage due.
  assert (Hnp : cur ≠ name primary).
  { intros E. apply (Hnone primary); [by left | done]. }
  rewrite (select_not_primary _ _ _ _ _ _ Hcur Hne Hnp). cbv zeta.
  unfold currentOrFirstFallback. rewrite (find_no_name _ _ Hnone). simpl.
  fold primaryUsage. fold due.
  destruct due; [|done].
  by destruct (isOverThreshold _ _).
Qed.

(** Closes a frame goal for a branch that returns the state untouched. *)
Ltac frame_unchanged :=
  cbn [fst snd]; repeat split; try done;
  let H := fresh in intros H; exfalso; by apply H.

(** C10. [selectThresholdAccount] leaves [usage], [currentAccount],
    [requestCount] and [config] as they were, and it changes
    [lastPrimaryCheck] only in the fallback-active state with a recovery
    trigger fired, to [now]. *)
Theorem select_frame now (accts : list Account) state :
  let state' := snd (selectThresholdAccount now accts state) in
  usage state' = usage state ∧
  currentAccount state' = currentAccount state ∧
  requestCount state' = requestCount state ∧
  config state' = config state ∧
  (lastPrimaryCheck state' ≠ lastPrimaryCheck state →
     modeOf accts state = Some FALLBACK_ACTIVE ∧
     lastPrimaryCheck state' = Some now ∧
     ∃ primary, head accts = Some primary ∧
       (resetPassed now (lastCheckOf state)
          (getEarliestResetTime (usageOf state (name primary)))
        || intervalPassed now (lastCheckOf state) (CHECK_INTERVAL state)) = true).
Proof.
  unfold selectThresholdAccount, modeOf.
  destruct accts as [|primary [|first rest]]; [frame_unchanged..|].
  destruct (currentAccount state) as [cur|] eqn:Hcur; [|frame_unchanged].
  destruct (String.eqb cur "") eqn:He; [frame_unchanged|].
  cbv zeta.
  destruct (String.eqb cur (name primary)) eqn:Hp.
  - destruct (isOverThreshold _ _); [|frame_unchanged].
    destruct (List.find _ _); frame_unchanged.
  - destruct (resetPassed _ _ _ || intervalPassed _ _ _) eqn:Hdue.
    + destruct (isOverThreshold _ _); simpl; repeat split; eauto.
    + frame_unchanged.
Qed.


Lemma select_unknown_active_witness :
  fst (selectThresholdAccount 5000000 demo_accounts
         (state_with (Some "removed") demo_usage (Some 4000000)))
  = Some (account_named "backup").
Proof.
  refine (select_unknown_active 5000000 (account_named "primary")
            (account_named "backup") [account_named "third"]
            (state_with (Some "removed") demo_usage (Some 4000000)) "removed" _ _ _).
  - reflexivity.
  - discriminate.
  - intros a [<-|[<-|[<-|[]]]]; discriminate.
Defined.

(** C9 fails as stated: the recorded name ["removed"] matches no account,
    no primary check was recorded, so the recovery interval has elapsed,
    the primary has no usage above threshold, and the primary is returned
    instead of the first fallback. *)
Lemma select_unknown_active_counterexample :
  (2 ≤ length [account_named "primary"; account_named "backup"])%nat ∧
  (∀ a, In a [account_named "primary"; account_named "backup"] → name a ≠ "removed") ∧
  fst (selectThresholdAccount 5000000
         [account_named "primary"; account_named "backup"]
         (state_with (Some "removed") ∅ None))
  ≠ Some (account_named "backup").
Proof.
  split; [simpl; lia|]. split.
  - intros a [<-|[<-|[]]]; discriminate.
  - vm_compute. discriminate.
Qed.

(** ** Stale metrics *)

Lemma float_pos_of_nonneg_nonzero (u : float) :
  (0 <=? u)%float = true → (u =? 0)%float = false → (0 <? u)%float = true.
Proof.
  rewrite leb_spec, FloatAxioms.eqb_spec, ltb_spec.
  unfold SFleb, SFeqb, SFltb.
  change (Prim2SF 0) with (S754_zero false).
  destruct (Prim2SF u) as [s|s| |s m e]; simpl; try done; by destruct s.
Qed.

Lemma gt_zero_neq (u : float) : gt u 0 = true → u ≠ 0%float.
Proof. intros H ->. vm_compute in H. discriminate. Qed.

Lemma resolveMetric_unchanged now m :
  snd (resolveMetric now m) = false → fst (resolveMetric now m) = m.
Proof.
  unfold resolveMetric. destruct m as [m|]; [|done].
  by destruct (isStale now m).
Qed.

Lemma resolveMetric_changed now m :
  snd (resolveMetric now m) = true → fst (resolveMetric now m) ≠ m.
Proof.
  unfold resolveMetric. destruct m as [m|]; [|done].
  destruct (isStale now m) eqn:Hs; [|done]. intros _ [= E].
  unfold isStale in Hs. destruct (reset m); [|done].
  apply andb_true_iff in Hs as [_ Hu]. apply gt_zero_neq in Hu.
  apply Hu. by rewrite <- E.
Qed.

Lemma resolveUsage_unchanged now u :
  snd (resolveUsage now u) = false → fst (resolveUsage now u) = u.
Proof.
  unfold resolveUsage. cbn [fst snd]. rewrite !orb_false_iff. intros [[H1 H2] H3].
  rewrite !resolveMetric_unchanged by done. by destruct u.
Qed.

Lemma resolveUsage_changed now u :
  snd (resolveUsage now u) = true → fst (resolveUsage now u) ≠ u.
Proof.
  unfold resolveUsage. cbn [fst snd]. rewrite !orb_true_iff.
  intros [[H|H]|H] E; apply resolveMetric_changed in H; apply H;
    by rewrite <- E at 2.
Qed.

Lemma resolveUsage_metric now u k m :
  metricOf k u = Some m → isStale now m = true →
  metricOf k (fst (resolveUsage now u)) = Some (mkMetric 0%float (reset m) "allowed").
Proof.
  intros Hm Hs. destruct k; simpl in *; rewrite Hm; simpl; by rewrite Hs.
Qed.

(** C6. [resolveStaleMetrics] sets to utilization 0 and status "allowed"
    every metric of every account whose reset instant lies in the past and
    whose utilization is nonzero, for metrics of the data model, and it
    returns true exactly when it changed the state. *)
Theorem resolveStaleMetrics_resets now state :
  let result := resolveStaleMetrics now state in
  (∀ um acct au k m r,
     usage state = Some um → um !! acct = Some au → metricOf k au = Some m →
     metric_in_model m →
     reset m = Some r → r * 1000 < now →
     (utilization m =? 0)%float = false →
     ∃ um' au',
       usage (fst result) = Some um' ∧ um' !! acct = Some au' ∧
       metricOf k au' = Some (mkMetric 0%float (Some r) "allowed")) ∧
  (snd result = true ↔ fst result ≠ state).
Proof.
  intros result. subst result. unfold resolveStaleMetrics. split.
  - intros um acct au k m r Hum Hacct Hm (Hlo & _ & Hr0) Hr Hpast Hnz.
    rewrite Hum. cbn [fst]. eexists _, _. split; [reflexivity|].
    rewrite lookup_fmap, Hacct. split; [reflexivity|].
    rewrite <- Hr. apply resolveUsage_metric; [done|].
    unfold isStale. rewrite Hr. rewrite Hr in Hr0.
    rewrite !andb_true_iff, negb_true_iff, Z.eqb_neq, Z.ltb_lt.
    split; [split; [congruence | done]|].
    by apply float_pos_of_nonneg_nonzero.
  - destruct (usage state) as [um|] eqn:Hum; cbn [fst snd]; [|done].
    split.
    + intros Hex Heq. apply existsb_exists in Hex as [[acct au] [Hin Hch]].
      apply list_elem_of_In, elem_of_map_to_list in Hin. simpl in Hch.
      apply resolveUsage_changed in Hch. apply Hch.
      assert (Hu : usage (set_usage (Some ((λ u, fst (resolveUsage now u)) <$> um)) state)
                   = Some um) by (by rewrite Heq).
      simpl in Hu. injection Hu as Hu.
      apply (f_equal (λ x : gmap string AccountUsage, x !! acct)) in Hu.
      rewrite lookup_fmap, Hin in Hu. by injection Hu.
    + intros Hne. destruct (existsb _ _) eqn:Hex; [done|]. exfalso. apply Hne.
      assert (Hid : (λ u, fst (resolveUsage now u)) <$> um = um).
      { apply map_eq. intros acct. rewrite lookup_fmap.
        destruct (um !! acct) as [au|] eqn:Hacct; [|done]. simpl. f_equal.
        apply resolveUsage_unchanged.
        destruct (snd (resolveUsage now au)) eqn:Hs; [|done].
        assert (existsb (λ kv, snd (resolveUsage now (snd kv))) (map_to_list um) = true);
          [|congruence].
        apply existsb_exists. exists (acct, au). split; [|done].
        by apply list_elem_of_In, elem_of_map_to_list. }
      rewrite Hid. destruct state. unfold set_usage. simpl in *. by rewrite Hum.
Qed.

Lemma resolveStaleMetrics_resets_witness :
  ∃ um' au',
    usage (fst (resolveStaleMetrics 1000000 stale_state)) = Some um' ∧
    um' !! "primary" = Some au' ∧
    metricOf Session5h au' = Some (mkMetric 0%float (Some 999) "allowed").
Proof.
  refine (proj1 (resolveStaleMetrics_resets 1000000 stale_state)
            (<["primary" := stale_entry]> ∅) "primary" stale_entry Session5h
            stale_metric 999 _ _ _ _ _ _ _).
  - reflexivity.
  - reflexivity.
  - reflexivity.
  - repeat split; discriminate.
  - reflexivity.
  - reflexivity.
  - reflexivity.
Defined.

Example resolveStaleMetrics_demo :
  resolveStaleMetrics 1000000 stale_state =
  (state_with (Some "primary")
     (<["primary" := mkUsage (Some (mkMetric 0%float (Some 999) "allowed"))
                             (metric_at 0.2) None None]> ∅) None,
   true).
Proof. vm_compute. reflexivity. Qed.

(** ** Usage update from an observation *)

Section ObservationFacts.
Variable parseFloat : string → float.
Variable parseInt : string → option Z.

(** C3, as the code has it.  [updateMetric] is applied to each of the
    three metrics on its own.  For one metric: when utilization, reset and
    status are all absent from the observation, the prior value is kept;
    when the observation has no usable reset (absent, not a number, or 0)
    and there is a prior value, the prior value is kept as well; otherwise
    a present utilization and a present status are applied, an absent one
    keeps its prior value (0 and "unknown" without a prior), and the reset
    becomes the one observed. *)
Theorem updateMetric_cases (headers : Headers) (nowIso accountName : string)
    (state : State) :
  let um := default ∅ (usage state) in
  let prevUsage := default (mkUsage None None None None) (um !! accountName) in
  ∀ k : MetricKey,
    let prev := metricOf k prevUsage in
    let rawUtil := headers !! (prefixOf k +:+ "-utilization") in
    let rawReset := headers !! (prefixOf k +:+ "-reset") in
    let rawStatus := headers !! (prefixOf k +:+ "-status") in
    let newReset := rawReset ≫= parseReset parseInt in
    ∃ au,
      usageOf (updateUsage parseFloat parseInt headers nowIso accountName state)
              accountName = Some au ∧
      timestamp au = Some nowIso ∧
      (rawUtil = None ∧ rawReset = None ∧ rawStatus = None → metricOf k au = prev) ∧
      (newReset = None → is_Some prev → metricOf k au = prev) ∧
      (¬ (rawUtil = None ∧ rawReset = None ∧ rawStatus = None) →
       is_Some newReset ∨ prev = None →
       metricOf k au =
       Some (mkMetric
               (match rawUtil with
                | Some s => or_zero (parseFloat s)
                | None => default 0%float (utilization <$> prev)
                end)
               newReset
               (match rawStatus with
                | Some s => s
                | None => default "unknown" (status <$> prev)
                end))).
Proof.
  intros um prevUsage k prev rawUtil rawReset rawStatus newReset.
  set (next := mkUsage
                 (updateMetric parseFloat parseInt headers (session5h prevUsage)
                    (prefixOf Session5h))
                 (updateMetric parseFloat parseInt headers (weekly7d prevUsage)
                    (prefixOf Weekly7d))
                 (updateMetric parseFloat parseInt headers (weekly7dSonnet prevUsage)
                    (prefixOf Weekly7dSonnet))
                 (Some nowIso)).
  exists next. split.
  { unfold usageOf, updateUsage. simpl. by rewrite lookup_insert_eq. }
  split; [reflexivity|].
  assert (Hk : metricOf k next
               = updateMetric parseFloat parseInt headers prev (prefixOf k)).
  { by destruct k. }
  rewrite Hk. unfold updateMetric.
  fold rawUtil rawReset rawStatus. fold newReset.
  split; [|split].
  - intros (-> & -> & ->). done.
  - intros Hn [p Hp]. rewrite Hn, Hp.
    by destruct rawUtil, rawReset, rawStatus.
  - intros Hsome Hor.
    assert (Hbody :
      match newReset, prev with
      | None, Some _ => prev
      | _, _ =>
          Some (mkMetric
                  match rawUtil with
                  | Some s => or_zero (parseFloat s)
                  | None => default 0%float (utilization <$> prev)
                  end
                  match newReset with
                  | Some r => Some r
                  | None => prev ≫= reset
                  end
                  match rawStatus with
                  | Some s => s
                  | None => default "unknown" (status <$> prev)
                  end)
      end
      = Some (mkMetric
                (match rawUtil with
                 | Some s => or_zero (parseFloat s)
                 | None => default 0%float (utilization <$> prev)
                 end)
                newReset
                (match rawStatus with
                 | Some s => s
                 | None => default "unknown" (status <$> prev)
                 end))).
    { destruct Hor as [[r Hr]| Hp].
      - rewrite Hr. done.
      - rewrite Hp. by destruct newReset. }
    destruct rawUtil, rawReset, rawStatus; try exact Hbody.
    exfalso. by apply Hsome.
Qed.
End ObservationFacts.

Lemma updateMetric_cases_witness :
  ∃ au,
    usageOf (updateUsage parseFloat_sample parseInt_sample utilization_and_reset
               "2026-01-01T00:00:00.000Z" "primary" known_state) "primary" = Some au ∧
    metricOf Session5h au = Some (mkMetric 0.5%float (Some 1700000000) "allowed").
Proof.
  destruct (updateMetric_cases parseFloat_sample parseInt_sample utilization_and_reset
              "2026-01-01T00:00:00.000Z" "primary" known_state Session5h)
    as (au & Hau & _ & _ & _ & Happlied).
  exists au. split; [exact Hau|].
  etrans; [apply Happlied|].
  - intros (H & _ & _). vm_compute in H. discriminate.
  - left. exists 1700000000. vm_compute. reflexivity.
  - vm_compute. reflexivity.
Defined.

(** C3 fails as stated: the observation carries the session utilization
    (0.5) but no reset, the account has a prior session metric, and the
    prior metric is returned whole, its utilization still 0.1. *)
Lemma updateMetric_counterexample :
  utilization_only !! (prefixOf Session5h +:+ "-utilization") = Some "0.5" ∧
  updateMetric parseFloat_sample parseInt_sample utilization_only
    (Some known_metric) (prefixOf Session5h) = Some known_metric ∧
  (utilization known_metric =? or_zero (parseFloat_sample "0.5"))%float = false.
Proof. repeat split; vm_compute; reflexivity. Qed.

(** The partial-telemetry property of the specification: a response with
    the session utilization alone leaves the two weekly metrics as they
    were. *)
Example updateUsage_keeps_weekly :
  ∃ au,
    usageOf (updateUsage parseFloat_sample parseInt_sample utilization_only
               "2026-01-01T00:00:00.000Z" "primary" known_state) "primary" = Some au ∧
    weekly7d au = metric_at 0.2 ∧ weekly7dSonnet au = None.
Proof. eexists. split; [vm_compute; reflexivity|]. split; reflexivity. Qed.

(** ** Merge of legacy sources *)

(** What [pickPreferredAccount] does for two records of one name, in the
    order the sources are read. *)
Lemma pickPreferredAccount_cases Date_parse current candidate :
  let chosen := pickPreferredAccount Date_parse (Some current) candidate in
  (hasRefreshToken candidate = true → hasRefreshToken current = false →
   chosen = candidate) ∧
  (hasRefreshToken candidate = hasRefreshToken current →
   chosen = if getAccountExpiry Date_parse current <? getAccountExpiry Date_parse candidate
            then candidate else current) ∧
  (hasRefreshToken candidate = false → hasRefreshToken current = true →
   chosen = if getAccountExpiry Date_parse current <? getAccountExpiry Date_parse candidate
            then candidate else current).
Proof.
  unfold pickPreferredAccount. repeat split.
  - by intros -> ->.
  - intros ->. by destruct (hasRefreshToken current).
  - by intros -> ->.
Qed.

(** C4, at the failing input.  The record read first has a refresh token
    and the earlier expiry, the record read second has an empty refresh
    token and the later expiry: the merged list keeps the one without a
    refresh token.  With the two sources swapped it keeps the one with the
    refresh token. *)
Theorem merge_order_dependent :
  mergeMultiAuthSources Date_parse_sample
    [source_of refreshable_record; source_of unrefreshable_record]
  = Some (mkMultiAuth [unrefreshable_record] 0) ∧
  mergeMultiAuthSources Date_parse_sample
    [source_of unrefreshable_record; source_of refreshable_record]
  = Some (mkMultiAuth [refreshable_record] 0) ∧
  hasRefreshToken refreshable_record = true ∧
  hasRefreshToken unrefreshable_record = false.
Proof. repeat split; vm_compute; reflexivity. Qed.

(** ** Atomic write and backup read *)

Lemma append_inj_l (p a b : string) : p +:+ a = p +:+ b → a = b.
Proof.
  induction p as [|c p IH]; [done|].
  change (String c (p +:+ a) = String c (p +:+ b) → a = b). intros [= H]. auto.
Qed.

Lemma append_empty_r (p : string) : p +:+ "" = p.
Proof.
  induction p as [|c p IH]; [done|].
  change (String c (p +:+ "") = String c p). by f_equal.
Qed.

Lemma path_ne_suffix (p a : string) : a ≠ "" → p +:+ a ≠ p.
Proof.
  intros Ha E. apply Ha. apply (append_inj_l p). by rewrite append_empty_r.
Qed.

Lemma bak_ne_path p : p +:+ ".bak" ≠ p.
Proof. by apply path_ne_suffix. Qed.

Lemma tmp_ne_path p : p +:+ ".tmp" ≠ p.
Proof. by apply path_ne_suffix. Qed.

Lemma tmp_ne_bak p : p +:+ ".tmp" ≠ p +:+ ".bak".
Proof. intros E. by apply append_inj_l in E. Qed.

Lemma afterBackup_path (fs : FS) p : afterBackup fs p !! p = fs !! p.
Proof.
  unfold afterBackup, copyFileSync. destruct (fs !! p) eqn:E; [|done].
  rewrite lookup_insert_ne; [done | apply bak_ne_path].
Qed.

Section PersistenceFacts.
Variable Json : Type.
Variable JSON_parse : string → option Json.
Variable JSON_stringify : Json → string.

(** A read looks at [filePath] and [filePath + '.bak'] and at no other
    file. *)
Lemma safeReadJSON_agree (fs1 fs2 : FS) p fallback :
  fs1 !! p = fs2 !! p → fs1 !! (p +:+ ".bak") = fs2 !! (p +:+ ".bak") →
  safeReadJSON Json JSON_parse fs1 p fallback = safeReadJSON Json JSON_parse fs2 p fallback.
Proof. unfold safeReadJSON. simpl. by intros -> ->. Qed.

(** C7. A [safeWriteJSON] stopped immediately before its rename leaves
    the content at [filePath] as it was, with the new content in
    [filePath + '.tmp']; a read of [filePath] gives the same result
    whatever a leftover [.tmp] file holds; and wherever the write stops,
    a copy or a write cut short included, the content at [filePath] is the
    old content or the complete new content. *)
Theorem safeWriteJSON_atomic (fs : FS) (filePath : string) (data fallback : Json) :
  let tmp := filePath +:+ ".tmp" in
  let interrupted := safeWriteJSON_upto Json JSON_stringify BeforeRename fs filePath data in
  interrupted !! filePath = fs !! filePath ∧
  interrupted !! tmp = Some (JSON_stringify data) ∧
  (∀ (fs' : FS) leftover,
     safeReadJSON Json JSON_parse (<[tmp := leftover]> fs') filePath fallback
     = safeReadJSON Json JSON_parse (delete tmp fs') filePath fallback) ∧
  (∀ p : Progress,
     let visible := safeWriteJSON_upto Json JSON_stringify p fs filePath data !! filePath in
     visible = fs !! filePath ∨ visible = Some (JSON_stringify data)) ∧
  safeWriteJSON Json JSON_stringify fs filePath data !! filePath
  = Some (JSON_stringify data).
Proof.
  intros tmp interrupted.
  assert (Hrenamed :
    safeWriteJSON Json JSON_stringify fs filePath data !! filePath
    = Some (JSON_stringify data)).
  { unfold safeWriteJSON, safeWriteJSON_upto, renameSync, writeFileSync.
    rewrite lookup_insert_eq. by rewrite lookup_insert_eq. }
  split; [|split; [|split; [|split]]].
  - unfold interrupted, safeWriteJSON_upto, writeFileSync.
    rewrite lookup_insert_ne by apply tmp_ne_path. apply afterBackup_path.
  - unfold interrupted, safeWriteJSON_upto, writeFileSync. by rewrite lookup_insert_eq.
  - intros fs' leftover. apply safeReadJSON_agree.
    + rewrite lookup_insert_ne by apply tmp_ne_path.
      by rewrite lookup_delete_ne by apply tmp_ne_path.
    + rewrite lookup_insert_ne by apply tmp_ne_bak.
      by rewrite lookup_delete_ne by apply tmp_ne_bak.
  - intros p visible. subst visible. destruct p as [|n| |n| |].
    + by left.
    + left. simpl. destruct (fs !! filePath) eqn:E; [|done].
      rewrite lookup_insert_ne; [done | apply bak_ne_path].
    + left. apply afterBackup_path.
    + left. simpl. rewrite lookup_insert_ne by apply tmp_ne_path.
      apply afterBackup_path.
    + left. simpl. unfold writeFileSync.
      rewrite lookup_insert_ne by apply tmp_ne_path. apply afterBackup_path.
    + right. exact Hrenamed.
  - exact Hrenamed.
Qed.
End PersistenceFacts.

Example safeWriteJSON_interrupted_demo :
  let fs : FS := {[ "state.json" := "old" ]} in
  let stopped := safeWriteJSON_upto string id (WritingTmp 2) fs "state.json" "new!" in
  stopped !! "state.json" = Some "old" ∧
  stopped !! "state.json.bak" = Some "old" ∧
  stopped !! "state.json.tmp" = Some "ne" ∧
  safeReadJSON string Some stopped "state.json" "{}" = "old".
Proof. repeat split; vm_compute; reflexivity. Qed.

(** ** Refresh with failover *)

Lemma Set_has_In (s : list string) (x : string) : Set_has s x = true ↔ In x s.
Proof.
  unfold Set_has. rewrite existsb_exists. split.
  - intros (y & Hy & E). apply String.eqb_eq in E. by subst.
  - intros H. exists x. split; [done | apply String.eqb_refl].
Qed.

Lemma Set_has_not_In (s : list string) (x : string) : Set_has s x = false ↔ ¬ In x s.
Proof. rewrite <- Set_has_In. by destruct (Set_has s x). Qed.







Section RefreshFacts.
Variable postToken : option string → TokenResponse.
Variable now : Z.
Variable accts : list Account.
Variable previousAccount : option string.


End RefreshFacts.



(** ** Well-formed metrics and account lists

    The theorems above are stated for metrics whose reset is not the
    falsy 0, for account lists with unique, non-empty names and for a
    selected account of the list.  The code keeps its data that way: the
    functions that write a metric never store a reset of 0,
    [mergeMultiAuthSources] builds lists with unique, non-empty names, and
    [selectThresholdAccount] returns an element of its list. *)

Lemma EMPTY_USAGE_reset k m : metricOf k EMPTY_USAGE = Some m → reset m ≠ Some 0.
Proof. destruct k; intros [= <-]; done. Qed.

Lemma updateMetric_reset parseFloat parseInt (headers : Headers) prev prefix m :
  (∀ p, prev = Some p → reset p ≠ Some 0) →
  updateMetric parseFloat parseInt headers prev prefix = Some m →
  reset m ≠ Some 0.
Proof.
  intros Hprev. unfold updateMetric.
  assert (Hparse : ∀ raw : option string, raw ≫= parseReset parseInt ≠ Some 0).
  { intros [raw|]; [|done]. simpl. unfold parseReset.
    destruct (parseInt raw) as [z|]; [|done].
    destruct (z =? 0) eqn:E; [done|]. apply Z.eqb_neq in E. congruence. }
  set (newReset := headers !! (prefix +:+ "-reset") ≫= parseReset parseInt).
  assert (Hnew : newReset ≠ Some 0) by apply Hparse.
  assert (Hbody :
    match newReset, prev with
    | None, Some _ => prev
    | _, _ =>
        Some (mkMetric
                match headers !! (prefix +:+ "-utilization") with
                | Some s => or_zero (parseFloat s)
                | None => default 0%float (utilization <$> prev)
                end
                match newReset with
                | Some r => Some r
                | None => prev ≫= reset
                end
                match headers !! (prefix +:+ "-status") with
                | Some s => s
                | None => default "unknown" (status <$> prev)
                end)
    end = Some m → reset m ≠ Some 0).
  { destruct newReset as [r|], prev as [p|]; intros [= <-]; simpl; auto. }
  destruct (headers !! (prefix +:+ "-utilization")),
           (headers !! (prefix +:+ "-reset")),
           (headers !! (prefix +:+ "-status")); try exact Hbody.
  intros ->. by apply Hprev.
Qed.

Lemma resolveMetric_reset now m m' :
  fst (resolveMetric now (Some m)) = Some m' → reset m' = reset m.
Proof.
  unfold resolveMetric. destruct (isStale now m); by intros [= <-].
Qed.

Lemma select_member now (accts : list Account) state a :
  fst (selectThresholdAccount now accts state) = Some a → In a accts.
Proof.
  unfold selectThresholdAccount.
  destruct accts as [|primary [|first rest]]; [done| |].
  { intros [= <-]. by left. }
  assert (Hstay : ∀ cur,
            In (currentOrFirstFallback (primary :: first :: rest) cur first)
               (primary :: first :: rest)).
  { intros cur. unfold currentOrFirstFallback.
    destruct (List.find _ _) as [x|] eqn:E; simpl.
    - by apply find_some in E as [? _].
    - right. by left. }
  destruct (currentAccount state) as [cur|]; [|intros [= <-]; by left].
  destruct (String.eqb cur ""); [intros [= <-]; by left|]. cbv zeta.
  destruct (String.eqb cur (name primary)).
  - destruct (isOverThreshold _ _); [|intros [= <-]; by left].
    destruct (List.find _ _) as [x|] eqn:E.
    + intros [= <-]. apply find_some in E as [? _]. by right.
    + assert (Hnone : ∀ f, In f [] →
                (getUtilizationScore (thresholdsOfState state) (usageOf state (name f))
                 <? getUtilizationScore (thresholdsOfState state)
                      (usageOf state (name first)))%float = false) by (by intros ? []).
      assert (Hbest : In (lowestPressure (thresholdsOfState state) state first
                            (first :: rest)) (first :: rest)).
      { destruct (lowestPressure_fold (thresholdsOfState state) state
                    (first :: rest) [] first Hnone) as [[Hb|Hb] _].
        - rewrite Hb. by left.
        - exact Hb. }
      intros [= <-]. right. exact Hbest.
  - destruct (_ || _); [destruct (negb _)|]; intros [= <-];
      first [by left | apply Hstay].
Qed.

Section MergeFacts.
Variable Date_parse : string → option Z.


Lemma pickPreferredAccount_name current candidate :
  (∀ c, current = Some c → name c = name candidate) →
  name (pickPreferredAccount Date_parse current candidate) = name candidate.
Proof.
  unfold pickPreferredAccount. destruct current as [c|]; [|done]. intros H.
  destruct (_ && _); [done|]. destruct (_ <? _); [done|]. by apply H.
Qed.

Lemma Map_get_In m k v : Map_get m k = Some v → In (k, v) m.
Proof.
  induction m as [|[k' v'] m IH]; simpl; [done|].
  destruct (String.eqb k' k) eqn:E.
  - apply String.eqb_eq in E. intros [= ->]. left. by subst.
  - intros H. right. by apply IH.
Qed.

Lemma Map_set_In m k v k' v' :
  In (k', v') (Map_set m k v) → (k' = k ∧ v' = v) ∨ In (k', v') m.
Proof.
  induction m as [|[k0 v0] m IH]; simpl.
  - intros [[= <- <-]|[]]. by left.
  - destruct (String.eqb k0 k) eqn:E.
    + intros [[= <- <-]|H]; [by left | right; by right].
    + intros [[= <- <-]|H]; [right; by left|].
      destruct (IH H) as [?|?]; [by left | right; by right].
Qed.

Lemma Map_set_keys m k v :
  fst <$> Map_set m k v = if Set_has (fst <$> m) k then fst <$> m else (fst <$> m) ++ [k].
Proof.
  induction m as [|[k0 v0] m IH]; [done|].
  cbn [Map_set]. unfold Set_has. cbn [fmap list_fmap fst existsb].
  rewrite (String.eqb_sym k k0).
  destruct (String.eqb k0 k) eqn:E.
  - apply String.eqb_eq in E. by subst.
  - cbn [fmap list_fmap fst orb]. fold (fst <$> Map_set m k v). rewrite IH.
    unfold Set_has. fold (fst <$> m).
    by destruct (existsb (String.eqb k) (fst <$> m)).
Qed.

Lemma Map_set_ok m k v :
  merged_ok m → name v = k → k ≠ "" → merged_ok (Map_set m k v).
Proof.
  intros [Hnd Hall] Hv Hk. split.
  - rewrite Map_set_keys. destruct (Set_has (fst <$> m) k) eqn:E; [done|].
    apply NoDup_app. split; [done|]. split; [|apply NoDup_singleton].
    intros x Hx Hx'. apply list_elem_of_In in Hx. apply list_elem_of_In in Hx'.
    destruct Hx' as [<-|[]]. by apply Set_has_not_In in E.
  - intros k' v' Hin. apply Map_set_In in Hin as [[-> ->]|Hin]; [done|]. by apply Hall.
Qed.

Lemma mergeAccounts_ok rawAccounts :
  ∀ m, merged_ok m → merged_ok (mergeAccounts Date_parse m rawAccounts).
Proof.
  unfold mergeAccounts.
  induction rawAccounts as [|raw rest IH]; intros m Hm; [done|].
  cbn [fold_left]. apply IH.
  destruct (String.eqb _ "") eqn:E; [done|]. apply String.eqb_neq in E.
  apply Map_set_ok; [done| |done].
  apply pickPreferredAccount_name. intros c Hc.
  apply Map_get_In in Hc. by apply Hm in Hc as [-> _].
Qed.

(** The merged account list has unique, non-empty names. *)
Lemma mergeMultiAuthSources_names sources merged :
  mergeMultiAuthSources Date_parse sources = Some merged →
  NoDup (name <$> accounts merged) ∧ ∀ a, In a (accounts merged) → name a ≠ "".
Proof.
  unfold mergeMultiAuthSources.
  set (step := λ (acc : list (string * Account) * Z) (source : option Source), _).
  assert (Hfold : ∀ l acc, merged_ok (fst acc) → merged_ok (fst (fold_left step l acc))).
  { induction l as [|src l IH]; intros acc Hacc; [done|].
    cbn [fold_left]. apply IH. unfold step.
    destruct src as [src|]; [|done].
    destruct (src_accounts src); [|done]. by apply mergeAccounts_ok. }
  specialize (Hfold sources ([], 0)).
  destruct (fst (fold_left step sources ([], 0))) as [|kv m] eqn:E; [done|].
  intros [= <-]. cbn [accounts].
  destruct Hfold as [Hnd Hall]; [split; [apply NoDup_nil_2 | by intros ? ? []]|].
  assert (Hnames : ∀ l : list (string * Account),
            (∀ k v, In (k, v) l → name v = k ∧ k ≠ "") →
            name <$> map snd l = fst <$> l).
  { induction l as [|[k v] l IHl]; intros Hl; [done|].
    cbn. f_equal; [by apply (Hl k v); left|]. apply IHl. intros ???. apply Hl. by right. }
  split.
  - change (NoDup (name <$> map snd (kv :: m))). by rewrite (Hnames _ Hall).
  - intros a Ha. change (In a (map snd (kv :: m))) in Ha.
    apply in_map_iff in Ha as [[k v] [<- Hin]].
    destruct (Hall k v Hin) as [Hn Hk]. cbn [snd]. by rewrite Hn.
Qed.
End MergeFacts.

(* ===================================================================== *)
(** * Further properties of the code *)
(* ===================================================================== *)

(** ** Selection *)

(** X1. [selectThresholdAccount] returns null exactly for an empty account
    list, and any account it returns is an element of the list. *)
Theorem select_returns_listed now (accts : list Account) state :
  (fst (selectThresholdAccount now accts state) = None ↔ accts = []) ∧
  ∀ a, fst (selectThresholdAccount now accts state) = Some a → In a accts.
Proof.
  split; [|apply select_member].
  split; [|by intros ->].
  destruct accts as [|primary rest]; [done|]. intros Hnone. exfalso.
  destruct (fst (selectThresholdAccount now (primary :: rest) state)) as [a|] eqn:E;
    [done|].
  clear Hnone. revert E. unfold selectThresholdAccount.
  destruct rest as [|first rest]; [done|].
  destruct (currentAccount state) as [cur|]; [|done].
  destruct (String.eqb cur ""); [done|]. cbv zeta.
  destruct (String.eqb cur (name primary)).
  - destruct (isOverThreshold _ _); [|done]. by destruct (List.find _ _).
  - destruct (_ || _); [|done]. by destruct (negb _).
Qed.

Lemma select_state_cases now (accts : list Account) state :
  snd (selectThresholdAccount now accts state) = state ∨
  ∃ primary first rest cur,
    accts = primary :: first :: rest ∧ currentAccount state = Some cur ∧
    String.eqb cur "" = false ∧ String.eqb cur (name primary) = false ∧
    snd (selectThresholdAccount now accts state) = set_lastPrimaryCheck (Some now) state.
Proof.
  unfold selectThresholdAccount.
  destruct accts as [|primary [|first rest]]; [by left..|].
  destruct (currentAccount state) as [cur|] eqn:Hcur; [|by left].
  destruct (String.eqb cur "") eqn:He; [by left|]. cbv zeta.
  destruct (String.eqb cur (name primary)) eqn:Hp.
  - left. destruct (isOverThreshold _ _); [|done]. by destruct (List.find _ _).
  - destruct (_ || _); [|by left]. right. exists primary, first, rest, cur.
    repeat split; try done. by destruct (negb _).
Qed.

(** X2. A second call of [selectThresholdAccount] at the same instant
    leaves the state as the first call left it, when the check interval is
    not negative: a recovery check that has just fired does not fire
    again. *)
Theorem select_state_settles now (accts : list Account) state :
  0 ≤ CHECK_INTERVAL state →
  let state' := snd (selectThresholdAccount now accts state) in
  snd (selectThresholdAccount now accts state') = state'.
Proof.
  intros Hint state'. subst state'.
  destruct (select_state_cases now accts state)
    as [Hsame|(primary & first & rest & cur & -> & Hcur & He & Hp & Hset)].
  - by rewrite !Hsame.
  - rewrite Hset. unfold selectThresholdAccount.
    cbn [currentAccount set_lastPrimaryCheck]. rewrite Hcur, He, Hp. cbv zeta.
    assert (Hno : resetPassed now (lastCheckOf (set_lastPrimaryCheck (Some now) state))
                    (getEarliestResetTime
                       (usageOf (set_lastPrimaryCheck (Some now) state) (name primary)))
                  || intervalPassed now
                       (lastCheckOf (set_lastPrimaryCheck (Some now) state))
                       (CHECK_INTERVAL (set_lastPrimaryCheck (Some now) state))
                  = false).
    { apply orb_false_iff. split.
      - unfold resetPassed, lastCheckOf. simpl.
        destruct (getEarliestResetTime _) as [e|]; [|done].
        destruct (e <=? now) eqn:E1; [|by rewrite andb_false_r].
        apply Z.leb_le in E1. rewrite andb_true_r.
        apply andb_false_iff. right. apply Z.ltb_ge. lia.
      - unfold intervalPassed, lastCheckOf. simpl.
        apply Z.ltb_ge. unfold CHECK_INTERVAL in *. simpl. lia. }
    by rewrite Hno.
Qed.

Lemma select_state_settles_witness :
  snd (selectThresholdAccount 5000000 demo_accounts
         (snd (selectThresholdAccount 5000000 demo_accounts
                 (state_with (Some "backup") demo_usage None))))
  = state_with (Some "backup") demo_usage (Some 5000000).
Proof.
  etrans.
  - apply (select_state_settles 5000000 demo_accounts
             (state_with (Some "backup") demo_usage None)).
    vm_compute. discriminate.
  - vm_compute. reflexivity.
Defined.

(** X3. [getEarliestResetTime] of a usage entry is null exactly when no
    metric of the entry has a reset; otherwise it is 1000 times the reset
    of one of the metrics and at most 1000 times the reset of each. *)
Theorem getEarliestResetTime_earliest (u : AccountUsage) :
  match getEarliestResetTime (Some u) with
  | None => ∀ k m, metricOf k u = Some m → reset m = None
  | Some e =>
      (∃ k m r, metricOf k u = Some m ∧ reset m = Some r ∧ e = r * 1000) ∧
      ∀ k m r, metricOf k u = Some m → reset m = Some r → e ≤ r * 1000
  end.
Proof.
  destruct u as [s w ws ts]. unfold getEarliestResetTime. cbn [session5h weekly7d weekly7dSonnet].
  destruct s as [[us [rs|] ss]|], w as [[uw [rw|] sw]|], ws as [[uws [rws|] sws]|];
    cbn [mbind option_bind reset omap list_omap id Math_min fold_left];
    first [ intros [] m; cbn [metricOf session5h weekly7d weekly7dSonnet];
            intros [= <-]; reflexivity
          | intros [] m; cbn [metricOf session5h weekly7d weekly7dSonnet];
            intros [=]
          | idtac ].
  all: split;
    [ repeat match goal with
             | |- context [Z.min ?a ?b] => destruct (Z.min_dec a b) as [->| ->]
             end;
      first
        [ eexists Session5h, _, _; cbn; split; [reflexivity|]; split; reflexivity
        | eexists Weekly7d, _, _; cbn; split; [reflexivity|]; split; reflexivity
        | eexists Weekly7dSonnet, _, _; cbn; split; [reflexivity|]; split; reflexivity ]
    | intros [] m r; cbn [metricOf session5h weekly7d weekly7dSonnet];
      intros [= <-]; cbn [reset]; intros [= <-]; lia ].
Qed.

(** ** Usage entries for every account *)

Lemma usageOf_default (state : State) (n : string) :
  default ∅ (usage state) !! n = usageOf state n.
Proof. unfold usageOf. by destruct (usage state). Qed.

Lemma ensure_fold (l : list Account) :
  ∀ (m : gmap string AccountUsage) (b : bool),
    let r := fold_left
               (λ (acc : gmap string AccountUsage * bool) (account : Account),
                  match fst acc !! name account with
                  | Some _ => acc
                  | None => (<[name account := EMPTY_USAGE]> (fst acc), true)
                  end) l (m, b) in
    (∀ n, fst r !! n =
          match m !! n with
          | Some u => Some u
          | None => if bool_decide (n ∈ name <$> l) then Some EMPTY_USAGE else None
          end) ∧
    snd r = b || existsb (λ a, bool_decide (m !! name a = None)) l.
Proof.
  induction l as [|a l IH]; intros m b.
  - simpl. split; [|by rewrite orb_false_r]. intros n. by destruct (m !! n).
  - cbn [fold_left fst]. destruct (m !! name a) as [ua|] eqn:Ha.
    + destruct (IH m b) as [Hl Hf]. split.
      * intros n. rewrite Hl. destruct (m !! n) eqn:Hn; [done|].
        assert (n ≠ name a) by congruence.
        rewrite fmap_cons. apply (f_equal (λ b : bool, if b then _ else _)).
        apply bool_decide_ext. rewrite elem_of_cons.
        split; [by right | intros [?|?]; [congruence | done]].
      * rewrite Hf. cbn [existsb]. rewrite (bool_decide_eq_false_2 _); [done|].
        by rewrite Ha.
    + destruct (IH (<[name a := EMPTY_USAGE]> m) true) as [Hl Hf]. split.
      * intros n. rewrite Hl. destruct (decide (n = name a)) as [->|Hne].
        -- rewrite lookup_insert_eq, Ha. rewrite bool_decide_eq_true_2; [done|].
           rewrite fmap_cons. apply elem_of_cons. by left.
        -- rewrite lookup_insert_ne by done. destruct (m !! n); [done|].
           rewrite fmap_cons. apply (f_equal (λ b : bool, if b then _ else _)).
           apply bool_decide_ext. rewrite elem_of_cons.
        split; [by right | intros [?|?]; [congruence | done]].
      * rewrite Hf. cbn [existsb]. rewrite (bool_decide_eq_true_2 _ Ha).
        by rewrite orb_true_r.
Qed.

Lemma ensureAll_usage (accts : list Account) state :
  accts ≠ [] →
  ∃ um, usage (fst (ensureAllAccountsInState accts state)) = Some um ∧
    (∀ n, um !! n =
          match usageOf state n with
          | Some u => Some u
          | None => if bool_decide (n ∈ name <$> accts) then Some EMPTY_USAGE else None
          end).
Proof.
  intros Hne. unfold ensureAllAccountsInState.
  destruct accts as [|a l]; [done|].
  destruct (ensure_fold (a :: l) (default ∅ (usage state)) false) as [Hl _].
  eexists. split; [reflexivity|]. intros n.
  rewrite <- usageOf_default. apply Hl.
Qed.

Lemma ensureAll_flag (accts : list Account) state :
  snd (ensureAllAccountsInState accts state) = true ↔
  ∃ a, In a accts ∧ usageOf state (name a) = None.
Proof.
  unfold ensureAllAccountsInState. destruct accts as [|a l].
  { split; [done | by intros (? & [] & _)]. }
  destruct (ensure_fold (a :: l) (default ∅ (usage state)) false) as [_ Hf].
  cbn [snd]. rewrite Hf. cbn [orb]. rewrite existsb_exists. split.
  - intros (x & Hx & Hd). exists x. split; [done|].
    apply bool_decide_eq_true in Hd. by rewrite <- usageOf_default.
  - intros (x & Hx & Hd). exists x. split; [done|].
    apply bool_decide_eq_true. by rewrite usageOf_default.
Qed.

Lemma ensureAll_unchanged (accts : list Account) state :
  snd (ensureAllAccountsInState accts state) = false →
  fst (ensureAllAccountsInState accts state) = state.
Proof.
  intros Hflag.
  assert (accts = [] ∨ ∃ a, In a accts) as [->|[a Ha]];
    [destruct accts as [|a l]; [by left | right; exists a; by left] | done |].
  assert (Hne : accts ≠ []) by (by intros ->).
  destruct (ensureAll_usage accts state Hne) as (um & Hum & Hl).
  assert (Hall : ∀ x, In x accts → is_Some (usageOf state (name x))).
  { intros x Hx. destruct (usageOf state (name x)) eqn:E; [by eexists|].
    assert (snd (ensureAllAccountsInState accts state) = true); [|congruence].
    apply ensureAll_flag. by exists x. }
  destruct (usage state) as [um0|] eqn:Hu.
  - assert (um = um0).
    { apply map_eq. intros n. rewrite Hl. unfold usageOf. rewrite Hu. simpl.
      destruct (um0 !! n) eqn:E; [done|].
      rewrite bool_decide_eq_false_2; [done|].
      intros Hin. apply list_elem_of_fmap in Hin as (x & -> & Hx).
      apply list_elem_of_In in Hx. destruct (Hall x Hx) as [u Hu'].
      unfold usageOf in Hu'. rewrite Hu in Hu'. simpl in Hu'. congruence. }
    subst um0. destruct state. simpl in *. subst.
    unfold ensureAllAccountsInState in *. destruct accts; [done|].
    cbn [fst] in *. unfold set_usage in *. simpl in *. by rewrite Hum.
  - exfalso. destruct (Hall a Ha) as [u Hu'].
    unfold usageOf in Hu'. by rewrite Hu in Hu'.
Qed.


(** X5. [ensureAllAccountsInState] is idempotent: run on its own result it
    reports no change and returns that state. *)
Theorem ensureAllAccountsInState_idempotent (accts : list Account) state :
  let state' := fst (ensureAllAccountsInState accts state) in
  ensureAllAccountsInState accts state' = (state', false).
Proof.
  intros state'.
  assert (Hflag : snd (ensureAllAccountsInState accts state') = false).
  { destruct (snd (ensureAllAccountsInState accts state')) eqn:E; [|done].
    apply ensureAll_flag in E as (a & Ha & Hmiss). exfalso.
    assert (Hne : accts ≠ []) by (by intros ->).
    destruct (ensureAll_usage accts state Hne) as (um & Hum & Hl).
    unfold usageOf in Hmiss. subst state'. rewrite Hum in Hmiss. simpl in Hmiss.
    rewrite Hl in Hmiss. destruct (usageOf state (name a)); [done|].
    rewrite bool_decide_eq_true_2 in Hmiss; [done|].
    apply list_elem_of_fmap. exists a. split; [done | by apply list_elem_of_In]. }
  pose proof (ensureAll_unchanged accts state' Hflag) as Hst.
  destruct (ensureAllAccountsInState accts state') as [s b]. simpl in *. by subst.
Qed.

(** ** Stale metrics, again *)

Lemma resolveMetric_idem now m :
  resolveMetric now (fst (resolveMetric now m)) = (fst (resolveMetric now m), false).
Proof.
  unfold resolveMetric. destruct m as [m|]; [|done].
  destruct (isStale now m) eqn:Hs; cbn [fst]; [|by rewrite Hs].
  assert (isStale now (mkMetric 0%float (reset m) "allowed") = false) as ->; [|done].
  unfold isStale. cbn [reset utilization]. destruct (reset m); [|done].
  apply andb_false_r.
Qed.

Lemma resolveUsage_idem now u :
  resolveUsage now (fst (resolveUsage now u)) = (fst (resolveUsage now u), false).
Proof.
  unfold resolveUsage. cbn [fst snd session5h weekly7d weekly7dSonnet timestamp].
  by rewrite !resolveMetric_idem.
Qed.

Lemma resolveUsage_not_stale now u k m :
  metricOf k (fst (resolveUsage now u)) = Some m → isStale now m = false.
Proof.
  intros Hm.
  assert (Hone : ∀ o, fst (resolveMetric now o) = Some m → isStale now m = false).
  { intros o Ho. pose proof (resolveMetric_idem now o) as Hi. rewrite Ho in Hi.
    unfold resolveMetric in Hi. by destruct (isStale now m). }
  destruct k; simpl in Hm; by eapply Hone.
Qed.

(** X6. After [resolveStaleMetrics] no metric in the state is stale, and
    the function is idempotent: run again at the same instant it reports
    no change and returns the same state. *)
Theorem resolveStaleMetrics_idempotent now state :
  let state' := fst (resolveStaleMetrics now state) in
  (∀ acct au k m,
     usageOf state' acct = Some au → metricOf k au = Some m → isStale now m = false) ∧
  resolveStaleMetrics now state' = (state', false).
Proof.
  intros state'. subst state'. unfold resolveStaleMetrics.
  destruct (usage state) as [um|] eqn:Hum; cbn [fst].
  - split.
    + intros acct au k m. unfold usageOf. cbn [usage set_usage mbind option_bind].
      rewrite lookup_fmap. destruct (um !! acct) as [au0|]; [|done].
      intros [= <-]. apply resolveUsage_not_stale.
    + cbn [usage set_usage]. f_equal.
      * unfold set_usage. cbn. f_equal. f_equal.
        apply map_eq. intros n. rewrite !lookup_fmap.
        destruct (um !! n) as [u|]; [|done].
        change (Some (fst (resolveUsage now (fst (resolveUsage now u))))
                = Some (fst (resolveUsage now u))).
        by rewrite resolveUsage_idem.
      * apply not_true_iff_false. intros Hex.
        apply existsb_exists in Hex as [[n u] [Hin Hch]].
        apply list_elem_of_In, elem_of_map_to_list in Hin.
        rewrite lookup_fmap in Hin. destruct (um !! n) as [u0|]; [|done].
        injection Hin as <-.
        change (snd (resolveUsage now (fst (resolveUsage now u0))) = true) in Hch.
        by rewrite resolveUsage_idem in Hch.
  - rewrite Hum. split; [|done]. intros acct au k m. unfold usageOf. by rewrite Hum.
Qed.

(** X7. [resolveStaleMetrics] keeps the set of accounts and of metrics,
    every reset instant and every timestamp; a metric that is not stale is
    left as it was; and no field of the state other than [usage]
    changes. *)
Theorem resolveStaleMetrics_frame now state :
  let state' := fst (resolveStaleMetrics now state) in
  (∀ acct, usageOf state acct = None → usageOf state' acct = None) ∧
  (∀ acct au, usageOf state acct = Some au →
     ∃ au', usageOf state' acct = Some au' ∧ timestamp au' = timestamp au ∧
       ∀ k, match metricOf k au with
            | None => metricOf k au' = None
            | Some m =>
                ∃ m', metricOf k au' = Some m' ∧ reset m' = reset m ∧
                      (isStale now m = false → m' = m)
            end) ∧
  config state' = config state ∧ currentAccount state' = currentAccount state ∧
  requestCount state' = requestCount state ∧
  lastPrimaryCheck state' = lastPrimaryCheck state.
Proof.
  intros state'. subst state'. unfold resolveStaleMetrics.
  destruct (usage state) as [um|] eqn:Hum; cbn [fst].
  - unfold usageOf. rewrite Hum. cbn [usage set_usage mbind option_bind].
    split; [|split; [|done]].
    + intros acct Hn. by rewrite lookup_fmap, Hn.
    + intros acct au Hau. rewrite lookup_fmap, Hau. eexists. split; [reflexivity|].
      split; [done|]. intros k.
      assert (Hone : ∀ o, match o with
                | None => fst (resolveMetric now o) = None
                | Some m => ∃ m', fst (resolveMetric now o) = Some m' ∧
                                  reset m' = reset m ∧ (isStale now m = false → m' = m)
                end).
      { intros [m|]; [|done]. unfold resolveMetric.
        destruct (isStale now m); eexists; (split; [reflexivity|]); by split. }
      destruct k; apply Hone.
  - split; [done|]. split; [|done]. intros acct au Hau. exists au.
    split; [done|]. split; [done|]. intros k. destruct (metricOf k au); [|done].
    by eexists.
Qed.

(** ** Usage update, again *)

Lemma or_zero_not_nan (x : float) : PrimFloat.is_nan (or_zero x) = false.
Proof.
  unfold or_zero, num_truthy.
  destruct (PrimFloat.is_nan x) eqn:En; [done|].
  destruct (PrimFloat.is_zero x); [done | exact En].
Qed.

Section UsageUpdateFacts.
Variable parseFloat : string → float.
Variable parseInt : string → option Z.

(** X8. The usage update after a response rewrites the entry of the
    account that served the request and nothing else: the entries of the
    other accounts and the other fields of the state are as before, the
    entry carries the time of the update, and when the response has none
    of the rate-limit headers the three metrics of the entry are as
    before, too. *)
Theorem updateUsage_frame (headers : Headers) (nowIso accountName : string)
    (state : State) :
  let state' := updateUsage parseFloat parseInt headers nowIso accountName state in
  let prev := default (mkUsage None None None None) (usageOf state accountName) in
  (∀ n, n ≠ accountName → usageOf state' n = usageOf state n) ∧
  (∃ au, usageOf state' accountName = Some au ∧ timestamp au = Some nowIso) ∧
  ((∀ k, headers !! (prefixOf k +:+ "-utilization") = None ∧
         headers !! (prefixOf k +:+ "-reset") = None ∧
         headers !! (prefixOf k +:+ "-status") = None) →
   usageOf state' accountName =
   Some (mkUsage (session5h prev) (weekly7d prev) (weekly7dSonnet prev) (Some nowIso))) ∧
  config state' = config state ∧ currentAccount state' = currentAccount state ∧
  requestCount state' = requestCount state ∧
  lastPrimaryCheck state' = lastPrimaryCheck state.
Proof.
  intros state' prev. subst state' prev. unfold updateUsage.
  rewrite <- (usageOf_default state accountName).
  split; [|split; [|split; [|done]]].
  - intros n Hn. unfold usageOf at 1. cbn [usage set_usage mbind option_bind].
    rewrite lookup_insert_ne by done. apply usageOf_default.
  - unfold usageOf. cbn [usage set_usage mbind option_bind].
    rewrite lookup_insert_eq. by eexists.
  - intros Hnone. unfold usageOf. cbn [usage set_usage mbind option_bind].
    rewrite lookup_insert_eq. f_equal.
    assert (Hkeep : ∀ k o, updateMetric parseFloat parseInt headers o (prefixOf k) = o).
    { intros k o. unfold updateMetric. destruct (Hnone k) as (-> & -> & ->). done. }
    f_equal; [apply (Hkeep Session5h) | apply (Hkeep Weekly7d)
              | apply (Hkeep Weekly7dSonnet)].
Qed.

(** X9. [updateMetric] keeps a metric well-formed: when the prior metric,
    if there is one, has a utilization that is a number and a reset that
    is not 0, the metric it returns has a utilization that is a number
    (never NaN, whatever the utilization header holds) and a reset that is
    not 0. *)
Theorem updateMetric_well_formed (headers : Headers) (prev : option Metric)
    (prefix : string) (m : Metric) :
  (∀ p, prev = Some p →
        PrimFloat.is_nan (utilization p) = false ∧ reset p ≠ Some 0) →
  updateMetric parseFloat parseInt headers prev prefix = Some m →
  PrimFloat.is_nan (utilization m) = false ∧ reset m ≠ Some 0.
Proof.
  intros Hprev Hm. split.
  - revert Hm. unfold updateMetric.
    set (newReset := headers !! (prefix +:+ "-reset") ≫= parseReset parseInt).
    assert (Hbody :
      match newReset, prev with
      | None, Some _ => prev
      | _, _ =>
          Some (mkMetric
                  match headers !! (prefix +:+ "-utilization") with
                  | Some s => or_zero (parseFloat s)
                  | None => default 0%float (utilization <$> prev)
                  end
                  match newReset with
                  | Some r => Some r
                  | None => prev ≫= reset
                  end
                  match headers !! (prefix +:+ "-status") with
                  | Some s => s
                  | None => default "unknown" (status <$> prev)
                  end)
      end = Some m → PrimFloat.is_nan (utilization m) = false).
    { destruct newReset as [r|], prev as [p|]; intros [= <-]; cbn [utilization];
        try (by apply (Hprev p));
        destruct (headers !! (prefix +:+ "-utilization")); cbn;
        first [apply or_zero_not_nan | by apply (Hprev p) | done]. }
    destruct (headers !! (prefix +:+ "-utilization")),
             (headers !! (prefix +:+ "-reset")),
             (headers !! (prefix +:+ "-status")); try exact Hbody.
    intros Hp. by apply (Hprev m).
  - apply (updateMetric_reset parseFloat parseInt headers prev prefix m); [|done].
    intros p Hp. by apply (Hprev p).
Qed.
End UsageUpdateFacts.

Lemma updateMetric_well_formed_witness :
  ∃ m,
    updateMetric parseFloat_sample parseInt_sample
      (<["anthropic-ratelimit-unified-5h-utilization" := "not a number"]>
         utilization_and_reset)
      (Some known_metric) "anthropic-ratelimit-unified-5h" = Some m ∧
    PrimFloat.is_nan (utilization m) = false ∧ reset m ≠ Some 0.
Proof.
  eexists. split; [vm_compute; reflexivity|].
  apply (updateMetric_well_formed parseFloat_sample parseInt_sample
           (<["anthropic-ratelimit-unified-5h-utilization" := "not a number"]>
              utilization_and_reset)
           (Some known_metric) "anthropic-ratelimit-unified-5h").
  - intros p [= <-]. split; [reflexivity | discriminate].
  - vm_compute. reflexivity.
Defined.

(** ** Normalization and merge, again *)






Section MergeMoreFacts.
Variable Date_parse : string → option Z.

(** X10. [normalizeAccountFields] is idempotent and conservative: it
    keeps the name and the legacy fields, a non-empty [access] or
    [refresh], and an [expires] that is a number. *)
Theorem normalizeAccountFields_idempotent (a : Account) :
  let a' := normalizeAccountFields Date_parse a in
  normalizeAccountFields Date_parse a' = a' ∧
  name a' = name a ∧
  accessToken a' = accessToken a ∧ refreshToken a' = refreshToken a ∧
  expiresAt a' = expiresAt a ∧
  (str_truthy (access a) = true → access a' = access a) ∧
  (str_truthy (refresh a) = true → refresh a' = refresh a) ∧
  (∀ e, expires a = Some e → expires a' = Some e).
Proof.
  destruct a as [n acc ref exp accT refT expAt].
  unfold normalizeAccountFields.
  cbn [name access refresh expires accessToken refreshToken expiresAt].
  split; [|split; [done|]; split; [done|]; split; [done|]; split; [done|]; split; [|split]].
  - f_equal.
    + destruct (str_truthy acc) eqn:Ea; cbn [negb]; [by rewrite Ea|].
      destruct accT as [t|]; [|by rewrite Ea]. by destruct (str_truthy (Some t)).
    + destruct (str_truthy ref) eqn:Er; cbn [negb]; [by rewrite Er|].
      destruct refT as [t|]; [|by rewrite Er]. by destruct (str_truthy (Some t)).
    + destruct exp as [e|]; [done|]. destruct expAt as [[x|x]|]; [done| |done].
      by destruct (Date_parse x).
  - by intros ->.
  - by intros ->.
  - by intros e [= ->].
Qed.


Lemma mergeAccounts_from (rawAccounts seen : list Account) :
  ∀ m,
    (∀ k v, In (k, v) m → ∃ a, In a seen ∧ v = normalizeAccountFields Date_parse a) →
    ∀ k v, In (k, v) (mergeAccounts Date_parse m rawAccounts) →
      ∃ a, In a (seen ++ rawAccounts) ∧ v = normalizeAccountFields Date_parse a.
Proof.
  unfold mergeAccounts. revert seen.
  induction rawAccounts as [|raw rest IH]; intros seen m Hm k v Hin.
  - rewrite app_nil_r. by apply (Hm k v).
  - cbn [fold_left] in Hin.
    replace (seen ++ raw :: rest) with ((seen ++ [raw]) ++ rest) by by rewrite <- app_assoc.
    eapply IH; [|exact Hin]. clear Hin k v. intros k v Hin.
    assert (Hold : ∀ k v, In (k, v) m →
              ∃ a, In a (seen ++ [raw]) ∧ v = normalizeAccountFields Date_parse a).
    { intros k' v' H'. destruct (Hm k' v' H') as (a & Ha & ->).
      exists a. split; [apply in_or_app; by left | done]. }
    destruct (String.eqb _ "") eqn:E; [by apply (Hold k v)|].
    apply Map_set_In in Hin as [[-> ->]|Hin]; [|by apply (Hold k v)].
    unfold pickPreferredAccount.
    destruct (Map_get m _) as [cur|] eqn:Hget.
    + apply Map_get_In in Hget.
      destruct (_ && _); [|destruct (_ <? _)];
        first [ by apply (Hold _ _ Hget)
              | exists raw; split; [apply in_or_app; right; by left | done] ].
    + exists raw. split; [apply in_or_app; right; by left | done].
Qed.
End MergeMoreFacts.

Section MergeSourcesFacts.
Variable Date_parse : string → option Z.

Lemma mergeMultiAuthSources_fold sources :
  mergeMultiAuthSources Date_parse sources =
  let r := fold_left (mergeStep Date_parse) sources ([], 0) in
  match fst r with
  | [] => None
  | merged => Some (mkMultiAuth (map snd merged) (snd r))
  end.
Proof. reflexivity. Qed.

Lemma sourceAccounts_cons source sources :
  sourceAccounts (source :: sources)
  = default [] (source ≫= src_accounts) ++ sourceAccounts sources.
Proof. done. Qed.


Lemma mergeStep_accounts acc source :
  fst (mergeStep Date_parse acc source)
  = mergeAccounts Date_parse (fst acc) (default [] (source ≫= src_accounts)).
Proof.
  unfold mergeStep. destruct source as [src|]; [|reflexivity].
  cbn [mbind option_bind]. destruct (src_accounts src); reflexivity.
Qed.



Lemma merge_fold_from sources :
  ∀ acc seen,
    (∀ k v, In (k, v) (fst acc) →
            ∃ a, In a seen ∧ v = normalizeAccountFields Date_parse a) →
    ∀ k v, In (k, v) (fst (fold_left (mergeStep Date_parse) sources acc)) →
      ∃ a, In a (seen ++ sourceAccounts sources) ∧
           v = normalizeAccountFields Date_parse a.
Proof.
  induction sources as [|source sources IH]; intros acc seen Hacc k v Hin.
  - unfold sourceAccounts. simpl. rewrite app_nil_r. by apply (Hacc k v).
  - cbn [fold_left] in Hin. rewrite sourceAccounts_cons, app_assoc.
    eapply IH; [|exact Hin]. rewrite mergeStep_accounts.
    by apply mergeAccounts_from.
Qed.




(** X12. Every record of the merged list is the normalized form of a
    record of one of the sources, with its name. *)
Theorem mergeMultiAuthSources_records_from_sources sources merged :
  mergeMultiAuthSources Date_parse sources = Some merged →
  ∀ b, In b (accounts merged) →
    ∃ a, In a (sourceAccounts sources) ∧ name a = name b ∧
         b = normalizeAccountFields Date_parse a.
Proof.
  rewrite mergeMultiAuthSources_fold. cbv zeta.
  pose proof (merge_fold_from sources ([], 0) []) as Hfrom.
  destruct (fst (fold_left (mergeStep Date_parse) sources ([], 0))) as [|kv m] eqn:E;
    [done|].
  intros [= <-] b Hb. change (In b (map snd (kv :: m))) in Hb.
  apply in_map_iff in Hb as ([k v] & <- & Hin).
  destruct (Hfrom ltac:(by intros ? ? []) k v Hin) as (a & Ha & Hv).
  exists a. split; [done|]. split; [|done]. cbn [snd]. by rewrite Hv.
Qed.
End MergeSourcesFacts.

Lemma mergeMultiAuthSources_records_from_sources_witness :
  ∃ a, In a [refreshable_record; unrefreshable_record] ∧
       name a = "work" ∧ unrefreshable_record = normalizeAccountFields Date_parse_sample a.
Proof.
  refine (mergeMultiAuthSources_records_from_sources Date_parse_sample
            [source_of refreshable_record; source_of unrefreshable_record]
            (mkMultiAuth [unrefreshable_record] 0) _ unrefreshable_record _).
  - vm_compute. reflexivity.
  - left. reflexivity.
Defined.

Section MergeAgainFacts.
Variable Date_parse : string → option Z.

Lemma normalizeAccountFields_twice (a : Account) :
  normalizeAccountFields Date_parse (normalizeAccountFields Date_parse a)
  = normalizeAccountFields Date_parse a.
Proof.
  destruct a as [n acc ref exp accT refT expAt].
  unfold normalizeAccountFields.
  cbn [name access refresh expires accessToken refreshToken expiresAt].
  f_equal.
  - destruct (str_truthy acc) eqn:Ea; cbn [negb]; [by rewrite Ea|].
    destruct accT as [t|]; [|by rewrite Ea]. by destruct (str_truthy (Some t)).
  - destruct (str_truthy ref) eqn:Er; cbn [negb]; [by rewrite Er|].
    destruct refT as [t|]; [|by rewrite Er]. by destruct (str_truthy (Some t)).
  - destruct exp as [e|]; [done|]. destruct expAt as [[x|x]|]; [done| |done].
    by destruct (Date_parse x).
Qed.

Lemma merge_fold_count sources :
  ∀ acc,
    let r := fold_left (mergeStep Date_parse) sources acc in
    snd acc ≤ snd r ∧
    (∀ src n, In (Some src) sources → is_Some (src_accounts src) →
              src_requestCount src = Some n → n ≤ snd r) ∧
    (snd r = snd acc ∨
     ∃ src, In (Some src) sources ∧ is_Some (src_accounts src) ∧
            src_requestCount src = Some (snd r)).
Proof.
  induction sources as [|source sources IH]; intros acc.
  - simpl. split; [lia|]. split; [by intros ? ? []|by left].
  - cbn [fold_left]. destruct (IH (mergeStep Date_parse acc source)) as (Hle & Hall & Hone).
    assert (Hstep : snd acc ≤ snd (mergeStep Date_parse acc source) ∧
              (∀ src n, source = Some src → is_Some (src_accounts src) →
                        src_requestCount src = Some n →
                        n ≤ snd (mergeStep Date_parse acc source)) ∧
              (snd (mergeStep Date_parse acc source) = snd acc ∨
               ∃ src, source = Some src ∧ is_Some (src_accounts src) ∧
                      src_requestCount src = Some (snd (mergeStep Date_parse acc source)))).
    { unfold mergeStep. destruct source as [src|]; [|by repeat split; [lia| |left]].
      destruct (src_accounts src) as [raws|] eqn:Hacc.
      - cbn [snd]. destruct (src_requestCount src) as [n|] eqn:Hn.
        + destruct (snd acc <? n) eqn:Hlt.
          * apply Z.ltb_lt in Hlt. split; [lia|]. split.
            -- intros ? ? [= <-] _ Hn'. rewrite Hn in Hn'. injection Hn' as <-. lia.
            -- right. exists src. by rewrite Hacc.
          * apply Z.ltb_ge in Hlt. split; [lia|]. split; [|by left].
            intros ? ? [= <-] _ Hn'. rewrite Hn in Hn'. by injection Hn' as <-.
        + split; [lia|]. split; [|by left]. intros ? ? [= <-] _ Hn'. congruence.
      - split; [lia|]. split; [|by left]. intros ? ? [= <-] [? ?]. congruence. }
    destruct Hstep as (Hle' & Hall' & Hone'). split; [lia|]. split.
    + intros src n [->|Hin] Hs Hn; [|by apply (Hall src n)].
      specialize (Hall' src n eq_refl Hs Hn). lia.
    + destruct Hone as [Heq|(src & Hin & Hs & Hn)].
      * rewrite Heq. destruct Hone' as [?|(src & -> & Hs & Hn)]; [by left|].
        right. exists src. split; [by left | done].
      * right. exists src. split; [by right | done].
Qed.

(** X13. The request count of the merged result is the largest request
    count among the sources that have an [accounts] array, and 0 when none
    of them has a positive one. *)
Theorem mergeMultiAuthSources_requestCount sources merged :
  mergeMultiAuthSources Date_parse sources = Some merged →
  0 ≤ ma_requestCount merged ∧
  (∀ src n, In (Some src) sources → is_Some (src_accounts src) →
            src_requestCount src = Some n → n ≤ ma_requestCount merged) ∧
  (ma_requestCount merged = 0 ∨
   ∃ src, In (Some src) sources ∧ is_Some (src_accounts src) ∧
          src_requestCount src = Some (ma_requestCount merged)).
Proof.
  rewrite mergeMultiAuthSources_fold. cbv zeta.
  destruct (merge_fold_count sources ([], 0)) as (Hle & Hall & Hone).
  destruct (fst (fold_left (mergeStep Date_parse) sources ([], 0))); [done|].
  intros [= <-]. cbn [ma_requestCount]. done.
Qed.

Lemma Map_get_fresh (m : list (string * Account)) (k : string) :
  ¬ In k (fst <$> m) → Map_get m k = None.
Proof.
  induction m as [|[k' v] m IH]; [done|]. cbn. intros Hk.
  destruct (String.eqb k' k) eqn:E.
  - apply String.eqb_eq in E. exfalso. apply Hk. by left.
  - apply IH. intros ?. apply Hk. by right.
Qed.

Lemma Map_set_fresh (m : list (string * Account)) (k : string) (v : Account) :
  ¬ In k (fst <$> m) → Map_set m k v = m ++ [(k, v)].
Proof.
  induction m as [|[k' v'] m IH]; [done|]. cbn. intros Hk.
  destruct (String.eqb k' k) eqn:E.
  - apply String.eqb_eq in E. exfalso. apply Hk. by left.
  - f_equal. apply IH. intros ?. apply Hk. by right.
Qed.

Lemma mergeAccounts_distinct (l : list Account) :
  ∀ m,
    (∀ a, In a l → name a ≠ "" ∧ normalizeAccountFields Date_parse a = a) →
    NoDup ((fst <$> m) ++ (name <$> l)) →
    mergeAccounts Date_parse m l = m ++ map (λ a, (name a, a)) l.
Proof.
  unfold mergeAccounts.
  induction l as [|a l IH]; intros m Hl Hnd; [by rewrite app_nil_r|].
  cbn [fold_left map]. destruct (Hl a ltac:(by left)) as [Hne Hnorm].
  rewrite Hnorm. apply String.eqb_neq in Hne. rewrite Hne.
  assert (Hfresh : ¬ In (name a) (fst <$> m)).
  { intros Hin. apply NoDup_app in Hnd as (_ & Hdis & _).
    apply (Hdis (name a)); [by apply list_elem_of_In|].
    rewrite fmap_cons. apply elem_of_cons. by left. }
  rewrite (Map_get_fresh _ _ Hfresh). cbn [pickPreferredAccount].
  rewrite (Map_set_fresh _ _ _ Hfresh). rewrite IH.
  - by rewrite <- app_assoc.
  - intros b Hb. apply Hl. by right.
  - rewrite fmap_app. cbn [fmap list_fmap fst]. rewrite <- app_assoc. exact Hnd.
Qed.

(** X14. Merging is a one-time rewrite: the merge of the merged result
    alone is the merged result again, the same records in the same order
    with the same request count. *)
Theorem mergeMultiAuthSources_stable sources merged :
  mergeMultiAuthSources Date_parse sources = Some merged →
  mergeMultiAuthSources Date_parse
    [Some (mkSource (Some (accounts merged)) (Some (ma_requestCount merged)))]
  = Some merged.
Proof.
  intros Hm.
  destruct (mergeMultiAuthSources_names Date_parse sources merged Hm) as [Hnd Hne].
  assert (Hrc : 0 ≤ ma_requestCount merged).
  { revert Hm. rewrite mergeMultiAuthSources_fold. cbv zeta.
    destruct (merge_fold_count sources ([], 0)) as (Hle & _ & _).
    destruct (fst (fold_left (mergeStep Date_parse) sources ([], 0))); [done|].
    by intros [= <-]. }
  assert (Hnorm : ∀ b, In b (accounts merged) → normalizeAccountFields Date_parse b = b).
  { revert Hm. rewrite mergeMultiAuthSources_fold. cbv zeta.
    pose proof (merge_fold_from Date_parse sources ([], 0) []) as Hfrom.
    destruct (fst (fold_left (mergeStep Date_parse) sources ([], 0))) as [|kv m] eqn:E;
      [done|].
    intros [= <-] b Hb. change (In b (map snd (kv :: m))) in Hb.
    apply in_map_iff in Hb as ([k v] & <- & Hin).
    destruct (Hfrom ltac:(by intros ? ? []) k v Hin) as (a & _ & ->).
    apply normalizeAccountFields_twice. }
  assert (Hsome : accounts merged ≠ []).
  { revert Hm. rewrite mergeMultiAuthSources_fold. cbv zeta.
    destruct (fst (fold_left (mergeStep Date_parse) sources ([], 0))); [done|].
    by intros [= <-]. }
  rewrite mergeMultiAuthSources_fold. cbv zeta. cbn [fold_left mergeStep src_accounts
    src_requestCount fst snd].
  rewrite (mergeAccounts_distinct (accounts merged) []); [|by auto|done].
  rewrite app_nil_l.
  assert (Hmap : map snd (map (λ a, (name a, a)) (accounts merged)) = accounts merged).
  { rewrite map_map. cbn. apply map_id. }
  destruct (map (λ a, (name a, a)) (accounts merged)) as [|x xs] eqn:E.
  { destruct (accounts merged); [done | discriminate]. }
  rewrite Hmap. f_equal. destruct merged as [accs rc]. cbn in *. f_equal.
  destruct (0 <? rc) eqn:Hlt; [done|]. apply Z.ltb_ge in Hlt. lia.
Qed.
End MergeAgainFacts.

Lemma mergeMultiAuthSources_requestCount_witness :
  0 ≤ 7 ∧
  mergeMultiAuthSources Date_parse_sample
    [Some (mkSource (Some [refreshable_record]) (Some 3));
     Some (mkSource (Some [unrefreshable_record]) (Some 7));
     Some (mkSource None (Some 99))]
  = Some (mkMultiAuth [unrefreshable_record] 7).
Proof.
  assert (Hm : mergeMultiAuthSources Date_parse_sample
                 [Some (mkSource (Some [refreshable_record]) (Some 3));
                  Some (mkSource (Some [unrefreshable_record]) (Some 7));
                  Some (mkSource None (Some 99))]
               = Some (mkMultiAuth [unrefreshable_record] 7))
    by (vm_compute; reflexivity).
  split; [|exact Hm].
  exact (proj1 (mergeMultiAuthSources_requestCount Date_parse_sample _ _ Hm)).
Defined.

Lemma mergeMultiAuthSources_stable_witness :
  mergeMultiAuthSources Date_parse_sample
    [Some (mkSource (Some [unrefreshable_record]) (Some 0))]
  = Some (mkMultiAuth [unrefreshable_record] 0).
Proof.
  refine (mergeMultiAuthSources_stable Date_parse_sample
            [source_of refreshable_record; source_of unrefreshable_record]
            (mkMultiAuth [unrefreshable_record] 0) _).
  vm_compute. reflexivity.
Defined.

(** ** Persistence, again *)

Section PersistenceMoreFacts.
Variable Json : Type.
Variable JSON_parse : string → option Json.
Variable JSON_stringify : Json → string.

Lemma safeWriteJSON_files (fs : FS) (filePath : string) (data : Json) :
  let fs' := safeWriteJSON Json JSON_stringify fs filePath data in
  fs' !! filePath = Some (JSON_stringify data) ∧
  fs' !! (filePath +:+ ".bak")
  = match fs !! filePath with
    | Some old => Some old
    | None => fs !! (filePath +:+ ".bak")
    end ∧
  fs' !! (filePath +:+ ".tmp") = None ∧
  ∀ other, other ≠ filePath → other ≠ filePath +:+ ".bak" →
           other ≠ filePath +:+ ".tmp" → fs' !! other = fs !! other.
Proof.
  intros fs'. subst fs'.
  unfold safeWriteJSON, safeWriteJSON_upto, renameSync, writeFileSync.
  rewrite lookup_insert_eq.
  assert (Hbak : afterBackup fs filePath !! (filePath +:+ ".bak")
                 = match fs !! filePath with
                   | Some old => Some old
                   | None => fs !! (filePath +:+ ".bak")
                   end).
  { unfold afterBackup, copyFileSync. destruct (fs !! filePath) eqn:E; [|done].
    by rewrite lookup_insert_eq. }
  assert (Hother : ∀ other, other ≠ filePath +:+ ".bak" →
            afterBackup fs filePath !! other = fs !! other).
  { intros other Hne. unfold afterBackup, copyFileSync.
    destruct (fs !! filePath) eqn:E; [|done]. by rewrite lookup_insert_ne. }
  split; [by rewrite lookup_insert_eq|]. split; [|split].
  - rewrite lookup_insert_ne by (symmetry; apply bak_ne_path).
    rewrite lookup_delete_ne by apply tmp_ne_bak.
    rewrite lookup_insert_ne by apply tmp_ne_bak. exact Hbak.
  - rewrite lookup_insert_ne by (symmetry; apply tmp_ne_path).
    by rewrite lookup_delete_eq.
  - intros other H1 H2 H3.
    rewrite lookup_insert_ne by done. rewrite lookup_delete_ne by done.
    rewrite lookup_insert_ne by done. by apply Hother.
Qed.

(** X15. A completed [safeWriteJSON] followed by [safeReadJSON] of the
    same path returns the value written, when the runtime parses what it
    printed back to that value. *)
Theorem safeWriteJSON_then_read (fs : FS) (filePath : string) (data fallback : Json) :
  JSON_parse (JSON_stringify data) = Some data →
  safeReadJSON Json JSON_parse (safeWriteJSON Json JSON_stringify fs filePath data)
               filePath fallback = data.
Proof.
  intros Hrt. destruct (safeWriteJSON_files fs filePath data) as (Hp & _).
  unfold safeReadJSON. cbn [readFirst]. by rewrite Hp, Hrt.
Qed.

(** X16. A completed [safeWriteJSON] leaves the new content at the path,
    the content the path had before in the [.bak] file (the old [.bak]
    file when the path did not exist), no [.tmp] file, and every other
    file as it was. *)
Theorem safeWriteJSON_effect (fs : FS) (filePath : string) (data : Json) :
  let fs' := safeWriteJSON Json JSON_stringify fs filePath data in
  fs' !! filePath = Some (JSON_stringify data) ∧
  fs' !! (filePath +:+ ".bak")
  = match fs !! filePath with
    | Some old => Some old
    | None => fs !! (filePath +:+ ".bak")
    end ∧
  fs' !! (filePath +:+ ".tmp") = None ∧
  ∀ other, other ≠ filePath → other ≠ filePath +:+ ".bak" →
           other ≠ filePath +:+ ".tmp" → fs' !! other = fs !! other.
Proof. apply safeWriteJSON_files. Qed.

(** X17. The backup protects the previous version: when the path held a
    parsable value before a completed write and the file at the path is
    afterwards lost or left unparsable, [safeReadJSON] returns the previous
    value. *)
Theorem safeReadJSON_recovers_previous (fs : FS) (filePath old : string)
    (previous data fallback : Json) :
  fs !! filePath = Some old →
  JSON_parse old = Some previous →
  let fs' := safeWriteJSON Json JSON_stringify fs filePath data in
  safeReadJSON Json JSON_parse (delete filePath fs') filePath fallback = previous ∧
  ∀ garbage, JSON_parse garbage = None →
    safeReadJSON Json JSON_parse (<[filePath := garbage]> fs') filePath fallback
    = previous.
Proof.
  intros Hold Hparse fs'.
  destruct (safeWriteJSON_files fs filePath data) as (_ & Hbak & _).
  rewrite Hold in Hbak. fold fs' in Hbak.
  unfold safeReadJSON. cbn [readFirst]. split.
  - rewrite lookup_delete_eq. rewrite lookup_delete_ne by (symmetry; apply bak_ne_path).
    by rewrite Hbak, Hparse.
  - intros garbage Hg. rewrite lookup_insert_eq, Hg.
    rewrite lookup_insert_ne by (symmetry; apply bak_ne_path).
    by rewrite Hbak, Hparse.
Qed.
End PersistenceMoreFacts.

Lemma safeWriteJSON_then_read_witness :
  safeReadJSON string Some
    (safeWriteJSON string id {[ "state.json" := "old" ]} "state.json" "new") "state.json" "{}"
  = "new".
Proof.
  apply (safeWriteJSON_then_read string Some id). reflexivity.
Defined.

Lemma safeReadJSON_recovers_previous_witness :
  safeReadJSON string (λ s, if String.eqb s "###" then None else Some s)
    (<["state.json" := "###"]>
       (safeWriteJSON string id {[ "state.json" := "old" ]} "state.json" "new"))
    "state.json" "{}"
  = "old".
Proof.
  refine (proj2 (safeReadJSON_recovers_previous string
                   (λ s, if String.eqb s "###" then None else Some s) id
                   {[ "state.json" := "old" ]} "state.json" "old" "old" "new" "{}" _ _)
                "###" _); reflexivity.
Defined.

(** ** State store *)

Section StateStoreFacts.
Context {Json : Type} `{EqDecision Json}.
Variable JSON_parse : string → option Json.
Variable JSON_stringify : Json → string.
Variable JSON_null : Json.
Variable isObject : Json → bool.
Variable STATE_FILE LEGACY_STATE_FILE : string.

(** X18. The migration of a legacy state file happens once.  When neither
    the state file nor its backup gives a value, and the legacy file gives
    an object, [getState] returns that object and writes it to the state
    file; the next [getState] returns the same object from the state file
    and writes nothing (given that the runtime parses what it prints back
    to the same value). *)
Theorem getState_migrates_once (fs : FS) (empty data : Json) :
  STATE_FILE ≠ LEGACY_STATE_FILE →
  safeReadJSON Json JSON_parse fs STATE_FILE JSON_null = JSON_null →
  safeReadJSON Json JSON_parse fs LEGACY_STATE_FILE JSON_null = data →
  data ≠ JSON_null →
  isObject data = true →
  JSON_parse (JSON_stringify data) = Some data →
  let r := getState JSON_parse JSON_stringify JSON_null isObject
                    STATE_FILE LEGACY_STATE_FILE fs empty in
  fst r = data ∧
  snd r !! STATE_FILE = Some (JSON_stringify data) ∧
  getState JSON_parse JSON_stringify JSON_null isObject
           STATE_FILE LEGACY_STATE_FILE (snd r) empty = (data, snd r).
Proof.
  intros Hpaths Hstate Hlegacy Hnn Hobj Hrt r. subst r.
  assert (Hfirst : getState JSON_parse JSON_stringify JSON_null isObject
                     STATE_FILE LEGACY_STATE_FILE fs empty
                   = (data, safeWriteJSON Json JSON_stringify fs STATE_FILE data)).
  { unfold getState. cbn [readJsonWithFallback]. rewrite Hstate.
    rewrite (bool_decide_eq_false_2 (JSON_null ≠ JSON_null)) by (by intros ?).
    rewrite Hlegacy. rewrite (bool_decide_eq_true_2 _ Hnn). cbn [fst snd].
    by rewrite (bool_decide_eq_true_2 _ eq_refl), Hobj. }
  rewrite Hfirst. cbn [fst snd].
  destruct (safeWriteJSON_files Json JSON_stringify fs STATE_FILE data) as (Hp & _).
  split; [done|]. split; [exact Hp|].
  unfold getState. cbn [readJsonWithFallback].
  assert (Hread : safeReadJSON Json JSON_parse
                    (safeWriteJSON Json JSON_stringify fs STATE_FILE data)
                    STATE_FILE JSON_null = data).
  { unfold safeReadJSON. cbn [readFirst]. by rewrite Hp, Hrt. }
  rewrite Hread, (bool_decide_eq_true_2 _ Hnn). cbn [fst snd].
  rewrite bool_decide_eq_false_2; [done|]. intros [= E]. by apply Hpaths.
Qed.
End StateStoreFacts.

Lemma getState_migrates_once_witness :
  fst (getState (Json := string) Some id "null" (λ _, true)
         state_file_sample legacy_file_sample legacy_only "{}") = "{}" ∧
  snd (getState (Json := string) Some id "null" (λ _, true)
         state_file_sample legacy_file_sample legacy_only "{}") !! state_file_sample
  = Some "{}" ∧
  getState (Json := string) Some id "null" (λ _, true)
    state_file_sample legacy_file_sample
    (snd (getState (Json := string) Some id "null" (λ _, true)
            state_file_sample legacy_file_sample legacy_only "{}")) "{}"
  = ("{}",
     snd (getState (Json := string) Some id "null" (λ _, true)
            state_file_sample legacy_file_sample legacy_only "{}")).
Proof.
  apply (getState_migrates_once (Json := string) Some id "null" (λ _, true)
           state_file_sample legacy_file_sample legacy_only "{}" "{}");
    first [reflexivity | discriminate].
Defined.


(** ** Refresh and the account choice of [fetch] *)

Lemma trackAccount_fields now previousAccount primaryName account state :
  let state' := trackAccount now previousAccount primaryName account state in
  currentAccount state' = Some (name account) ∧
  usage state' = usage state ∧ config state' = config state ∧
  requestCount state' = requestCount state ∧
  (lastPrimaryCheck state' = lastPrimaryCheck state ∨ lastPrimaryCheck state' = Some now) ∧
  (Some (name account) ≠ previousAccount → Some (name account) ≠ primaryName →
   lastPrimaryCheck state' = Some now).
Proof.
  unfold trackAccount.
  destruct (bool_decide (Some (name account) = previousAccount)) eqn:E1;
    destruct (bool_decide (Some (name account) = primaryName)) eqn:E2;
    cbn [negb andb]; repeat split; try done; try (by left); try (by right);
    intros H1 H2; exfalso;
    first [ apply bool_decide_eq_true in E1; by apply H1
          | apply bool_decide_eq_true in E2; by apply H2 ].
Qed.

Section RefreshMoreFacts.
Variable postToken : option string → TokenResponse.
Variable now : Z.

Lemma ensureFreshAccountToken_name (a : Account) :
  name (snd (ensureFreshAccountToken postToken now a)) = name a.
Proof.
  unfold ensureFreshAccountToken.
  destruct (_ && _); [done|]. by destruct (negb _).
Qed.



Lemma select_keeps_fields (accts : list Account) state :
  let state' := snd (selectThresholdAccount now accts state) in
  usage state' = usage state ∧ config state' = config state ∧
  requestCount state' = requestCount state ∧
  currentAccount state' = currentAccount state.
Proof.
  destruct (select_state_cases now accts state) as [->|(? & ? & ? & ? & _ & _ & _ & _ & ->)];
    done.
Qed.

End RefreshMoreFacts.

Section RecoveryClockFacts.
Variable postToken : option string → TokenResponse.
Variable now : Z.

Lemma refreshLoop_check (accts : list Account) previousAccount primaryName fuel :
  ∀ account attempted state,
    (Some (name account) ≠ previousAccount → Some (name account) ≠ primaryName →
     lastPrimaryCheck state = Some now) →
    match refreshLoop postToken fuel now accts previousAccount primaryName
                      account attempted state with
    | Refreshed account' state' _ =>
        Some (name account') ≠ previousAccount → Some (name account') ≠ primaryName →
        lastPrimaryCheck state' = Some now
    | _ => True
    end.
Proof.
  induction fuel as [|fuel IH]; intros account attempted state Hentry; [done|].
  cbn [refreshLoop].
  destruct (ensureFreshAccountToken postToken now account) as [[|status] account'] eqn:Hr.
  - pose proof (ensureFreshAccountToken_name postToken now account) as Hn.
    rewrite Hr in Hn. cbn [snd] in Hn. by rewrite Hn.
  - destruct (List.find _ accts) as [fallback|]; [|done].
    apply IH.
    by destruct (trackAccount_fields now previousAccount primaryName fallback state)
      as (_ & _ & _ & _ & _ & H).
Qed.

(** X21. When [fetch] ends up on an account that is neither the account
    recorded before the call nor the primary, the state it leaves has the
    time of the call as the last primary check: the recovery interval
    starts at the switch, whether the switch comes from the selection or
    from a failed refresh. *)
Theorem prepareRequest_starts_recovery_clock (accts : list Account) (state : State)
    (account : Account) (state' : State) :
  prepareRequest postToken now accts state = Ready account state' →
  Some (name account) ≠ currentAccount state →
  Some (name account) ≠ name <$> head accts →
  lastPrimaryCheck state' = Some now.
Proof.
  unfold prepareRequest. destruct accts as [|a0 l0] eqn:Hacc; [done|]. rewrite <- Hacc.
  set (state1 := fst (ensureAllAccountsInState accts state)).
  set (state2 := fst (resolveStaleMetrics now state1)).
  assert (Hcur2 : currentAccount state2 = currentAccount state).
  { assert (currentAccount state2 = currentAccount state1) as ->.
    { unfold state2, resolveStaleMetrics. by destruct (usage state1). }
    unfold state1, ensureAllAccountsInState. by destruct accts. }
  destruct (selectThresholdAccount now accts state2) as [[selected|] state3] eqn:Hsel;
    [|done].
  pose proof (select_keeps_fields now accts state2) as (_ & _ & _ & Hc3).
  rewrite Hsel in Hc3. cbn [snd] in Hc3. rewrite Hc3, Hcur2.
  pose proof (refreshLoop_check accts (currentAccount state) (name <$> head accts)
                (S (length accts)) selected []
                (trackAccount now (currentAccount state) (name <$> head accts)
                   selected state3)) as Hloop.
  destruct (refreshLoop _ _ _ _ _ _ _ _ _) as [a' s5 att|n st att|]; [|done..].
  intros [= <- <-] Hprev Hprim. cbn [lastPrimaryCheck set_requestCount].
  apply Hloop; [|done..].
  by destruct (trackAccount_fields now (currentAccount state) (name <$> head accts)
                 selected state3) as (_ & _ & _ & _ & _ & H).
Qed.

End RecoveryClockFacts.

Lemma prepareRequest_starts_recovery_clock_witness :
  ∃ account state',
    prepareRequest (λ _, mkTokenResponse true 200 "fresh" "next" 3600) 1000
      [account_named "primary"; account_named "third"]
      (state_with (Some "primary") (<["primary" := usage_at 0.1 0.85 0]> ∅) None)
    = Ready account state' ∧
    name account = "third" ∧ lastPrimaryCheck state' = Some 1000.
Proof.
  eexists _, _. split; [vm_compute; reflexivity|]. split; [reflexivity|].
  refine (prepareRequest_starts_recovery_clock
            (λ _, mkTokenResponse true 200 "fresh" "next" 3600) 1000
            [account_named "primary"; account_named "third"]
            (state_with (Some "primary") (<["primary" := usage_at 0.1 0.85 0]> ∅) None)
            _ _ _ _ _).
  - vm_compute. reflexivity.
  - discriminate.
  - discriminate.
Defined.

(** ** Reading with fallback paths *)

Section ReadFallbackFacts.
Context {Json : Type} `{EqDecision Json}.
Variable JSON_parse : string → option Json.
Variable JSON_null : Json.

(** X23. [readJsonWithFallback] returns the value of the first path of
    the list whose file, or backup file, parses to a value other than
    null, with that path as the source; when there is no such path it
    returns the fallback with a null source. *)
Theorem readJsonWithFallback_first (fs : FS) (filePaths : list string) (fallback : Json) :
  let read p := safeReadJSON Json JSON_parse fs p JSON_null in
  match readJsonWithFallback JSON_parse JSON_null fs filePaths fallback with
  | (data, None) => data = fallback ∧ ∀ p, In p filePaths → read p = JSON_null
  | (data, Some source) =>
      data = read source ∧ data ≠ JSON_null ∧
      ∃ before after,
        filePaths = before ++ source :: after ∧ ∀ p, In p before → read p = JSON_null
  end.
Proof.
  intros read. induction filePaths as [|p rest IH]; [by split|].
  cbn [readJsonWithFallback]. fold (read p). case_bool_decide as Hp.
  - split; [done|]. split; [done|]. exists [], rest. split; [done | by intros ? []].
  - assert (Hnull : read p = JSON_null) by (by destruct (decide (read p = JSON_null))).
    destruct (readJsonWithFallback JSON_parse JSON_null fs rest fallback)
      as [data [source|]].
    + destruct IH as (Hd & Hn & before & after & -> & Hb).
      split; [done|]. split; [done|]. exists (p :: before), after.
      split; [done|]. intros q [<-|Hq]; [done | by apply Hb].
    + destruct IH as [Hd Hall]. split; [done|]. intros q [<-|Hq]; [done | by apply Hall].
Qed.
End ReadFallbackFacts.

(** ** Reconcile, then select *)

(** X24. A rolled-over quota window makes an account eligible again
    without new telemetry: when each metric of the account that is over
    its threshold is stale, and no threshold is negative, the account is
    not over threshold after [resolveStaleMetrics]; and if that account is
    the primary and is recorded as the active account,
    [selectThresholdAccount] then returns it. *)
Theorem resolveStaleMetrics_clears_breach now (state : State) (n : string) :
  let th := thresholdsOfState state in
  (∀ k, gt 0%float (thresholdOf k th) = false) →
  (∀ au k m, usageOf state n = Some au → metricOf k au = Some m →
             gt (or_zero (utilization m)) (thresholdOf k th) = true →
             isStale now m = true) →
  let state' := fst (resolveStaleMetrics now state) in
  isOverThreshold (thresholdsOfState state') (usageOf state' n) = false ∧
  ∀ primary first rest,
    name primary = n → n ≠ "" → currentAccount state = Some n →
    fst (selectThresholdAccount now (primary :: first :: rest) state') = Some primary.
Proof.
  intros th Hth Hstale state'.
  assert (Hthr : thresholdsOfState state' = th).
  { subst state'. unfold resolveStaleMetrics. by destruct (usage state). }
  assert (Hcur : currentAccount state' = currentAccount state).
  { subst state'. unfold resolveStaleMetrics. by destruct (usage state). }
  assert (Hover : isOverThreshold (thresholdsOfState state') (usageOf state' n) = false).
  { rewrite Hthr. apply isOverThreshold_not_exceeds. intros [k Hk].
    subst state'. unfold resolveStaleMetrics in Hk.
    destruct (usage state) as [um|] eqn:Hum; cbn [fst] in Hk.
    - unfold usageOf in Hk. cbn [usage set_usage mbind option_bind] in Hk.
      rewrite lookup_fmap in Hk. destruct (um !! n) as [au|] eqn:Hau; [|done].
      cbn [fmap option_fmap option_map exceeds] in Hk.
      assert (Hus : usageOf state n = Some au) by (unfold usageOf; by rewrite Hum).
      assert (Hone : ∀ o, metricOf k au = o →
                match fst (resolveMetric now o) with
                | Some m' => gt (or_zero (utilization m')) (thresholdOf k th) = false
                | None => True
                end).
      { intros [m|] Hm; [|done]. unfold resolveMetric.
        destruct (isStale now m) eqn:Hs; cbn [fst utilization].
        - change (or_zero 0) with 0%float. apply Hth.
        - destruct (gt (or_zero (utilization m)) (thresholdOf k th)) eqn:Hg; [|done].
          rewrite (Hstale au k m Hus Hm Hg) in Hs. done. }
      unfold utilOf in Hk.
      assert (Hm' : metricOf k (fst (resolveUsage now au))
                    = fst (resolveMetric now (metricOf k au))) by (by destruct k).
      rewrite Hm' in Hk. specialize (Hone _ eq_refl).
      destruct (fst (resolveMetric now (metricOf k au))) as [m'|].
      + by rewrite Hone in Hk.
      + by rewrite Hth in Hk.
    - unfold usageOf in Hk. by rewrite Hum in Hk. }
  split; [exact Hover|].
  intros primary first rest Hn Hne Hc. unfold selectThresholdAccount.
  rewrite Hcur, Hc. apply String.eqb_neq in Hne. rewrite Hne, Hn, String.eqb_refl.
  cbv zeta. by rewrite Hover.
Qed.

Lemma resolveStaleMetrics_clears_breach_witness :
  fst (selectThresholdAccount 1000000
         [account_named "primary"; account_named "backup"]
         (fst (resolveStaleMetrics 1000000 stale_state)))
  = Some (account_named "primary").
Proof.
  refine (proj2 (resolveStaleMetrics_clears_breach 1000000 stale_state "primary" _ _)
                (account_named "primary") (account_named "backup") [] _ _ _);
    try reflexivity; try discriminate.
  - intros []; reflexivity.
  - intros au k m [= <-]. destruct k; intros [= <-]; try reflexivity.
    vm_compute. discriminate.
Defined.
